(** * Trab01React: the validated CRUD life cycle of the [users] resource

    A shallow embedding of the user-management service:
    - [JS]: the JavaScript primitives the code calls ([Number], [isNaN],
      [String.prototype.trim], [String.prototype.replace]);
    - [Zod]: the schema combinators of zod 3 that the two [userSchema]
      declarations use, and object parsing in its default (strip) mode;
    - [Db]: the [users] table of [db/schema/users.js] and the four
      statements the router issues against it;
    - [Server]: the [validateRequest] middleware and the five route
      handlers of [routes/users.routes.js];
    - [Client]: the form schema and the submit path of [UserForm.jsx];
    - [Pagination], [UserList]: the pagination component and the state
      and paging of the list page of [UserList.jsx].

    Strings.  A JavaScript string is a sequence of UTF-16 code units; a
    [string] here holds one code unit per character, for the code units
    below 256.  [String.length] is then the [.length] of the source. *)

From Stdlib Require Import ZArith NArith String Ascii List Bool Lia.
From Stdlib Require Import SpecFloat.
From Stdlib Require Import DecimalString DecimalN DecimalPos DecimalFacts.
From Stdlib Require Import Sorted.
Import ListNotations.

(* ================================================================== *)
(** ** JavaScript primitives *)

Module JS.

Local Open Scope string_scope.

(** Turns the UTF-8 bytes of a literal of this file into code units
    (two-byte sequences only: the accented letters of the messages). *)
Fixpoint code_units (s : string) : string :=
  match s with
  | String c1 (String c2 rest as tl) =>
      let n1 := N_of_ascii c1 in
      let n2 := N_of_ascii c2 in
      if ((194 <=? n1) && (n1 <=? 195) && (128 <=? n2) && (n2 <=? 191))%N
      then String (ascii_of_N ((n1 - 192) * 64 + (n2 - 128))) (code_units rest)
      else String c1 (code_units tl)
  | other => other
  end.

(** WhiteSpace and LineTerminator code units below 256: TAB, LF, VT, FF,
    CR, SP and NBSP. *)
Definition is_white_space (c : ascii) : bool :=
  let n := N_of_ascii c in
  ((n =? 9) || (n =? 10) || (n =? 11) || (n =? 12) || (n =? 13)
   || (n =? 32) || (n =? 160))%N.

Fixpoint trimStart (s : string) : string :=
  match s with
  | String c rest => if is_white_space c then trimStart rest else s
  | EmptyString => EmptyString
  end.

Fixpoint trimEnd (s : string) : string :=
  match s with
  | EmptyString => EmptyString
  | String c rest =>
      match trimEnd rest with
      | EmptyString => if is_white_space c then EmptyString else String c EmptyString
      | kept => String c kept
      end
  end.

(** [String.prototype.trim]. *)
Definition trim (s : string) : string := trimEnd (trimStart s).

(** [s.replace(pattern, replacement)] with a string pattern: only the
    first occurrence is replaced (the replacement holds no [$]). *)
Fixpoint replace (pattern replacement s : string) : string :=
  if prefix pattern s
  then replacement ++ substring (String.length pattern) (String.length s - String.length pattern) s
  else match s with
       | EmptyString => EmptyString
       | String c rest => String c (replace pattern replacement rest)
       end.

(** *** [Number(string)]: the StringToNumber grammar of ECMAScript *)

Definition digit_value (radix : N) (c : ascii) : option N :=
  let n := N_of_ascii c in
  let v := if ((48 <=? n) && (n <=? 57))%N then Some (n - 48)%N
           else if ((97 <=? n) && (n <=? 102))%N then Some (n - 87)%N
           else if ((65 <=? n) && (n <=? 70))%N then Some (n - 55)%N
           else None in
  match v with
  | Some d => if (d <? radix)%N then Some d else None
  | None => None
  end.

(** Reads the longest run of digits at the head of [s]: the value read on
    top of [acc], how many digits were read, and the rest. *)
Fixpoint read_digits (radix : N) (acc : N) (s : string) : N * nat * string :=
  match s with
  | String c rest =>
      match digit_value radix c with
      | Some d =>
          let '(v, n, r) := read_digits radix (acc * radix + d)%N rest in
          (v, S n, r)
      | None => (acc, O, s)
      end
  | EmptyString => (acc, O, s)
  end.

Definition read_sign (s : string) : bool * string :=
  match s with
  | String "+" rest => (false, rest)
  | String "-" rest => (true, rest)
  | _ => (false, s)
  end.

(** ExponentPart, optional: the exponent, or [None] when ill-formed. *)
Definition read_exponent (s : string) : option Z :=
  match s with
  | EmptyString => Some 0%Z
  | String c rest =>
      if (Ascii.eqb c "e" || Ascii.eqb c "E")%bool then
        let '(neg, r1) := read_sign rest in
        match read_digits 10 0 r1 with
        | (_, O, _) => None
        | (x, _, EmptyString) => Some (if neg then (- Z.of_N x)%Z else Z.of_N x)
        | _ => None
        end
      else None
  end.

(** StrUnsignedDecimalLiteral without [Infinity]: the digits as one
    integer [m] and the power of ten [e], for the value [m * 10 ^ e]. *)
Definition read_decimal (s : string) : option (N * Z) :=
  let '(i, ni, r1) := read_digits 10 0 s in
  let '(m, nf, r2) :=
    match r1 with
    | String "." r => read_digits 10 i r
    | _ => (i, O, r1)
    end in
  match (ni + nf)%nat with
  | O => None
  | _ => match read_exponent r2 with
         | Some x => Some (m, (x - Z.of_nat nf)%Z)
         | None => None
         end
  end.

(** NonDecimalIntegerLiteral: [0x], [0o], [0b] and at least one digit. *)
Definition read_non_decimal (s : string) : option N :=
  match s with
  | String "0" (String c rest) =>
      let radix := if (Ascii.eqb c "x" || Ascii.eqb c "X")%bool then Some 16%N
                   else if (Ascii.eqb c "o" || Ascii.eqb c "O")%bool then Some 8%N
                   else if (Ascii.eqb c "b" || Ascii.eqb c "B")%bool then Some 2%N
                   else None in
      match radix with
      | Some r => match read_digits r 0 rest with
                  | (_, O, _) => None
                  | (v, _, EmptyString) => Some v
                  | _ => None
                  end
      | None => None
      end
  | _ => None
  end.

(** The Number value (binary64, round to nearest, ties to even) of
    [m * 10 ^ e], with the sign [neg]. *)
Definition number_value (neg : bool) (m : N) (e : Z) : spec_float :=
  match m with
  | N0 => S754_zero neg
  | Npos p =>
      if (0 <=? e)%Z
      then binary_normalize 53 1024
             ((if neg then Z.neg p else Z.pos p) * 10 ^ e)%Z 0%Z false
      else SFdiv 53 1024 (S754_finite neg p 0)
                         (S754_finite false (Z.to_pos (10 ^ (- e))) 0)
  end.

Definition Number (s : string) : spec_float :=
  let t := trim s in
  match t with
  | EmptyString => S754_zero false
  | _ =>
      match read_non_decimal t with
      | Some v => number_value false v 0
      | None =>
          let '(neg, u) := read_sign t in
          if String.eqb u "Infinity" then S754_infinity neg
          else match read_decimal u with
               | Some (m, e) => number_value neg m e
               | None => S754_nan
               end
      end
  end.

Definition isNaN (x : spec_float) : bool :=
  match x with
  | S754_nan => true
  | _ => false
  end.

Definition isFinite (x : spec_float) : bool :=
  match x with
  | S754_zero _ | S754_finite _ _ _ => true
  | _ => false
  end.

(** [x] is the integer [n], exactly. *)
Definition equals_int (x : spec_float) (n : Z) : bool :=
  match x with
  | S754_zero _ => (n =? 0)%Z
  | S754_finite neg m e =>
      let sm := if neg then Z.neg m else Z.pos m in
      if (0 <=? e)%Z then (n =? sm * 2 ^ e)%Z else (n * 2 ^ (- e) =? sm)%Z
  | _ => false
  end.

End JS.

(* ================================================================== *)
(** ** zod 3: the combinators of the two [userSchema] declarations *)

Module Zod.

Local Open Scope string_scope.

(** A JSON value, as [bodyParser.json()] and the form state deliver it. *)
#[warnings="-register-all"] Inductive json : Type :=
| JNull
| JBool (b : bool)
| JNumber (x : spec_float)
| JString (s : string)
| JArray (items : list json)
| JObject (props : list (string * json)).

(** An object whose properties are strings: what the schemas of this
    repository produce. *)
Definition object := list (string * string).

(** [data[key]]: [None] is [undefined]. *)
Fixpoint get {A : Type} (props : list (string * A)) (key : string) : option A :=
  match props with
  | [] => None
  | (k, v) :: rest => if String.eqb k key then Some v else get rest key
  end.

Definition keys {A : Type} (props : list (string * A)) : list string :=
  map fst props.

(** [data[key] = v]: in place when the property exists, appended otherwise. *)
Fixpoint set {A : Type} (props : list (string * A)) (key : string) (v : A)
  : list (string * A) :=
  match props with
  | [] => [(key, v)]
  | (k, old) :: rest =>
      if String.eqb k key then (k, v) :: rest else (k, old) :: set rest key v
  end.

Fixpoint join (sep : string) (parts : list string) : string :=
  match parts with
  | [] => ""
  | [p] => p
  | p :: rest => p ++ sep ++ join sep rest
  end.

(** A validated object, as the JSON value it is when it is sent on. *)
Definition to_json (vals : list (string * string)) : list (string * json) :=
  map (fun '(k, v) => (k, JString v)) vals.

(** [ZodParsedType], for the values above. *)
Inductive parsed_type : Type :=
| t_undefined | t_null | t_boolean | t_number | t_nan | t_string | t_array | t_object.

Definition getParsedType (data : option json) : parsed_type :=
  match data with
  | None => t_undefined
  | Some JNull => t_null
  | Some (JBool _) => t_boolean
  | Some (JNumber x) => if JS.isNaN x then t_nan else t_number
  | Some (JString _) => t_string
  | Some (JArray _) => t_array
  | Some (JObject _) => t_object
  end.

(** The string a JSON value is, if it is one. *)
Definition as_string (data : option json) : option string :=
  match data with
  | Some (JString s) => Some s
  | _ => None
  end.

(** The validated object, when the object is accepted. *)
Definition accepted {A B : Type} (r : A + B) : option B :=
  match r with
  | inr v => Some v
  | inl _ => None
  end.

(** The message of an issue: the text the schema gives, or one of zod's
    own messages, kept by its issue code.  The issue of a union that no
    option accepts carries [unionErrors]; of these the issues of the
    first option are kept, which is what the code below reads. *)
#[warnings="-register-all"] Inductive message : Type :=
| Custom (text : string)
| Required
| InvalidType (expected : string) (received : parsed_type)
| InvalidEnumValue (options : list string) (received : string)
| InvalidLiteral (expected : string)
| InvalidUnion (unionErrors : list message).

Record issue : Type := { path : list string; msg : message }.

(** The string checks the schemas use; each carries its message. *)
Inductive check : Type :=
| min (n : nat) (text : string)
| email (text : string)
| url (text : string).

Inductive schema : Type :=
| z_string (checks : list check)
| z_enum (values : list string) (errorMap : option string)
| z_literal (value : string)
| optional (inner : schema)
| default (inner : schema) (value : string)
| or (first second : schema).

Definition shape := list (string * schema).

(** What [_parse] returns: the value ([None] for [undefined]), or the
    issues it raised; a value that fails a check is [DIRTY], a value of
    the wrong kind is [INVALID]. *)
Inductive result : Type :=
| OK (value : option string)
| DIRTY (issues : list message)
| INVALID (issues : list message).

Definition kept (r : result) : option (option string) :=
  match r with
  | OK v => Some v
  | _ => None
  end.

Definition raised (r : result) : list message :=
  match r with
  | OK _ => []
  | DIRTY issues | INVALID issues => issues
  end.

(** [schema.partial()]: every property becomes optional. *)
Definition partial (sh : shape) : shape :=
  map (fun '(key, s) => (key, optional s)) sh.

(** The two checks zod delegates: the e-mail pattern and [new URL(s)].
    Both are functions of the string alone; [new URL("")] throws. *)
Class Validators : Type := {
  isEmail : string -> bool;
  isUrl : string -> bool;
  isUrl_empty : isUrl "" = false
}.

Section Parse.

Context {V : Validators}.

Definition run_check (c : check) (s : string) : list message :=
  match c with
  | min n text => if (String.length s <? n)%nat then [Custom text] else []
  | email text => if isEmail s then [] else [Custom text]
  | url text => if isUrl s then [] else [Custom text]
  end.

Definition invalid_type (expected : string) (data : option json) : message :=
  match data with
  | None => Required
  | _ => InvalidType expected (getParsedType data)
  end.

Definition with_errorMap (errorMap : option string) (m : message) : message :=
  match errorMap with
  | Some text => Custom text
  | None => m
  end.

(** [schema._parse], the paths of the issues left to the enclosing
    object.  A union returns its first option that is valid, or else its
    first option that is dirty, with the issues of that option. *)
Fixpoint parse (s : schema) (data : option json) : result :=
  match s with
  | z_string checks =>
      match data with
      | Some (JString v) =>
          match flat_map (fun c => run_check c v) checks with
          | [] => OK (Some v)
          | issues => DIRTY issues
          end
      | _ => INVALID [invalid_type "string" data]
      end
  | z_enum values errorMap =>
      match data with
      | Some (JString v) =>
          if existsb (String.eqb v) values then OK (Some v)
          else INVALID [with_errorMap errorMap (InvalidEnumValue values v)]
      | _ => INVALID [with_errorMap errorMap
                        (invalid_type (join " | " (map (fun v => "'" ++ v ++ "'") values))
                                      data)]
      end
  | z_literal value =>
      match data with
      | Some (JString v) =>
          if String.eqb v value then OK (Some v) else INVALID [InvalidLiteral value]
      | _ => INVALID [InvalidLiteral value]
      end
  | optional inner =>
      match data with
      | None => OK None
      | _ => parse inner data
      end
  | default inner value =>
      match data with
      | None => parse inner (Some (JString value))
      | _ => parse inner data
      end
  | or first second =>
      match parse first data, parse second data with
      | OK v, _ => OK v
      | _, OK v => OK v
      | DIRTY issues, _ => DIRTY issues
      | _, DIRTY issues => DIRTY issues
      | INVALID issues, INVALID _ => INVALID [InvalidUnion issues]
      end
  end.

(** The properties of the shape, in order: the issues with their paths and
    the properties kept.  Properties outside the shape are not read. *)
Fixpoint parse_shape (sh : shape) (props : list (string * json))
  : list issue * object :=
  match sh with
  | [] => ([], [])
  | (key, s) :: rest =>
      let '(issues, out) := parse_shape rest props in
      match parse s (get props key) with
      | OK (Some v) => (issues, (key, v) :: out)
      | OK None => (issues, out)
      | DIRTY msgs | INVALID msgs =>
          ((map (fun m => {| path := [key]; msg := m |}) msgs ++ issues)%list, out)
      end
  end.

(** [z.object(shape).parse(data)]. *)
Definition parse_object (sh : shape) (data : json) : list issue + object :=
  match data with
  | JObject props =>
      match parse_shape sh props with
      | ([], out) => inr out
      | (issues, _) => inl issues
      end
  | _ => inl [{| path := []; msg := InvalidType "object" (getParsedType (Some data)) |}]
  end.

(** The issues and the output of one property of an object. *)
Definition issues_of (props : list (string * json)) (field : string * schema)
  : list issue :=
  map (fun m => {| path := [fst field]; msg := m |})
      (raised (parse (snd field) (get props (fst field)))).

Definition output_of (props : list (string * json)) (field : string * schema)
  : object :=
  match parse (snd field) (get props (fst field)) with
  | OK (Some v) => [(fst field, v)]
  | _ => []
  end.

(** The property [key] of [props] is one the shape refuses: a required
    property that is missing, or a value that is not valid. *)
Definition offends (sh : shape) (props : list (string * json)) (key : string) : Prop :=
  exists s, In (key, s) sh /\ kept (parse s (get props key)) = None.

(** Two schemas that keep the same value of a property, or both refuse it. *)
Definition same_verdict (props : list (string * json)) (f1 f2 : string * schema) : Prop :=
  fst f1 = fst f2 /\
  kept (parse (snd f1) (get props (fst f1)))
  = kept (parse (snd f2) (get props (fst f2))).

End Parse.

End Zod.

(* ================================================================== *)
(** ** The [users] table and the statements issued against it *)

Module Db.

Local Open Scope string_scope.
Local Open Scope Z_scope.

(** A row of [users]; [avatar] is nullable.  A timestamp is the number of
    seconds the column keeps; the statements below take the reading [now]
    of the clock that stamps them: [now()] of the server for an insert,
    [new Date()] of the application for an update. *)
Record user : Type := {
  id : Z;
  name : string;
  email : string;
  avatar : option string;
  role : string;
  status : string;
  createdAt : Z;
  updatedAt : Z
}.

(** The table and its AUTO_INCREMENT counter. *)
Record database : Type := { rows : list user; auto_increment : Z }.

Inductive error_code : Type :=
| ER_DUP_ENTRY
| ER_DATA_TOO_LONG
| ER_NO_DEFAULT_FOR_FIELD
| ER_BAD_FIELD_ERROR.

Definition error_code_eqb (a b : error_code) : bool :=
  match a, b with
  | ER_DUP_ENTRY, ER_DUP_ENTRY => true
  | ER_DATA_TOO_LONG, ER_DATA_TOO_LONG => true
  | ER_NO_DEFAULT_FOR_FIELD, ER_NO_DEFAULT_FOR_FIELD => true
  | ER_BAD_FIELD_ERROR, ER_BAD_FIELD_ERROR => true
  | _, _ => false
  end.

(** A statement: it throws or returns, and leaves a table behind. *)
Definition M (A : Type) : Type := database -> (error_code + A) * database.

Definition ret {A : Type} (a : A) : M A := fun db => (inr a, db).

Definition throw {A : Type} (e : error_code) : M A := fun db => (inl e, db).

Definition bind {A B : Type} (m : M A) (k : A -> M B) : M B :=
  fun db => match m db with
            | (inr a, db') => k a db'
            | (inl e, db') => (inl e, db')
            end.

Definition try_catch {A : Type} (m : M A) (handler : error_code -> M A) : M A :=
  fun db => match m db with
            | (inl e, db') => handler e db'
            | done => done
            end.

(** What the storage engine decides and the repository does not:
    - [collate]: the weight string of the collation of [email], two
      e-mails collide on the unique index when their weights are equal;
    - [nonfinite_id]: the error of a statement that compares [id] with
      an infinity, or [None] when the comparison is false on every row;
    - [insert_system_columns], [update_system_columns]: the statement
      when the values name [id], [createdAt] or [updatedAt]. *)
Class Engine : Type := {
  collate : string -> string;
  nonfinite_id : option error_code;
  insert_system_columns : Zod.object -> Z -> M Z;
  update_system_columns : spec_float -> Zod.object -> Z -> M unit
}.

Section Statements.

Context {E : Engine}.

Definition same_email (a b : string) : bool := String.eqb (collate a) (collate b).

(** [eq(users.id, x)] on a row. *)
Definition id_is (x : spec_float) (u : user) : bool := JS.equals_int x (id u).

Definition mentions (vals : Zod.object) (columns : list string) : bool :=
  existsb (fun c => match Zod.get vals c with Some _ => true | None => false end)
          columns.

(** A value that does not fit [varchar(255)].  The statement that carries
    one is taken to fail with [ER_DATA_TOO_LONG], as MySQL does in the
    strict SQL mode, its default, when the excess is more than trailing
    spaces.  The SQL mode is set outside the repository: what is said
    below of the values a row holds is said of values that fit. *)
Definition too_long (v : option string) : bool :=
  match v with
  | Some s => (255 <? String.length s)%nat
  | None => false
  end.

Definition any_too_long (vals : Zod.object) : bool :=
  existsb (fun c => too_long (Zod.get vals c))
          ["name"; "email"; "avatar"; "role"; "status"].

Definition or_default (v : option string) (d : string) : string :=
  match v with
  | Some s => s
  | None => d
  end.

(** A row holds an e-mail that collides with [e] on the unique index. *)
Definition email_in_use (e : string) (db : database) : bool :=
  existsb (fun u => same_email e (email u)) (rows db).

(** Every id in the table was handed out by the counter. *)
Definition below_counter (db : database) : Prop :=
  Forall (fun u => id u < auto_increment db) (rows db).

(** No row has the id [n]. *)
Definition absent (n : Z) (db : database) : Prop :=
  forall u, In u (rows db) -> id u <> n.

(** [db.select().from(users)]. *)
Definition select_all : M (list user) := fun db => (inr (rows db), db).

(** [db.select().from(users).where(eq(users.id, x))]. *)
Definition select_where_id (x : spec_float) : M (list user) :=
  fun db =>
    if JS.isFinite x then (inr (filter (id_is x) (rows db)), db)
    else match nonfinite_id with
         | Some e => (inl e, db)
         | None => (inr [], db)
         end.

(** The columns a request may not set. *)
Definition system_columns : list string := ["id"; "createdAt"; "updatedAt"].

(** The row an insert adds: the columns left out take their defaults
    ([role], [status], both timestamps [now()], the next AUTO_INCREMENT
    value for [id]). *)
Definition inserted (vals : Zod.object) (n e : string) (now : Z) (db : database) : user :=
  {| id := auto_increment db;
     name := n;
     email := e;
     avatar := Zod.get vals "avatar";
     role := or_default (Zod.get vals "role") "user";
     status := or_default (Zod.get vals "status") "active";
     createdAt := now;
     updatedAt := now |}.

(** [db.insert(users).values(vals).$returningId()].  A collision on the
    unique index uses up the AUTO_INCREMENT value it was given. *)
Definition insert (vals : Zod.object) (now : Z) : M Z :=
  fun db =>
    if mentions vals system_columns
    then insert_system_columns vals now db
    else
      match Zod.get vals "name", Zod.get vals "email" with
      | Some n, Some e =>
          if any_too_long vals then (inl ER_DATA_TOO_LONG, db)
          else if email_in_use e db
          then (inl ER_DUP_ENTRY,
                {| rows := rows db; auto_increment := auto_increment db + 1 |})
          else
            (inr (auto_increment db),
             {| rows := rows db ++ [inserted vals n e now db];
                auto_increment := auto_increment db + 1 |})
      | _, _ => (inl ER_NO_DEFAULT_FOR_FIELD, db)
      end.

(** The row after [SET vals, updated_at = now]. *)
Definition assign (vals : Zod.object) (now : Z) (u : user) : user :=
  {| id := id u;
     name := or_default (Zod.get vals "name") (name u);
     email := or_default (Zod.get vals "email") (email u);
     avatar := match Zod.get vals "avatar" with
               | Some a => Some a
               | None => avatar u
               end;
     role := or_default (Zod.get vals "role") (role u);
     status := or_default (Zod.get vals "status") (status u);
     createdAt := createdAt u;
     updatedAt := now |}.

(** The new e-mail, when one is set, is the e-mail of a row that is not
    being updated. *)
Definition email_taken (x : spec_float) (vals : Zod.object) (db : database) : bool :=
  match Zod.get vals "email" with
  | Some e => existsb (fun u => negb (id_is x u) && same_email e (email u)) (rows db)
  | None => false
  end.

(** The table after the rows with id [x] are assigned. *)
Definition updated (x : spec_float) (vals : Zod.object) (now : Z) (db : database)
  : database :=
  {| rows := map (fun u => if id_is x u then assign vals now u else u) (rows db);
     auto_increment := auto_increment db |}.

(** What a request may do to the table: nothing, add a row with the id
    of the counter, assign the rows of one id, or remove them. *)
Inductive effect (db : database) : database -> Prop :=
| unchanged : effect db db
| counted : effect db {| rows := rows db; auto_increment := auto_increment db + 1 |}
| added (u : user) :
    id u = auto_increment db ->
    effect db {| rows := rows db ++ [u]; auto_increment := auto_increment db + 1 |}
| assigned (x : spec_float) (vals : Zod.object) (now : Z) :
    effect db (updated x vals now db)
| removed (x : spec_float) :
    effect db {| rows := filter (fun u => negb (id_is x u)) (rows db);
                 auto_increment := auto_increment db |}.

(** [db.update(users).set({...vals, updatedAt: now}).where(eq(users.id, x))];
    [id] is the primary key, so at most one row is touched. *)
Definition update (x : spec_float) (vals : Zod.object) (now : Z) : M unit :=
  fun db =>
    if mentions vals ["id"; "createdAt"]
    then update_system_columns x vals now db
    else if negb (JS.isFinite x)
    then match nonfinite_id with
         | Some e => (inl e, db)
         | None => (inr tt, db)
         end
    else if negb (existsb (id_is x) (rows db)) then (inr tt, db)
    else if any_too_long vals then (inl ER_DATA_TOO_LONG, db)
    else if email_taken x vals db then (inl ER_DUP_ENTRY, db)
    else (inr tt, updated x vals now db).

(** [db.delete(users).where(eq(users.id, x))]. *)
Definition delete (x : spec_float) : M unit :=
  fun db =>
    if JS.isFinite x
    then (inr tt,
          {| rows := filter (fun u => negb (id_is x u)) (rows db);
             auto_increment := auto_increment db |})
    else match nonfinite_id with
         | Some e => (inl e, db)
         | None => (inr tt, db)
         end.

End Statements.

End Db.

Declare Scope db_scope.
Delimit Scope db_scope with db.
Notation "x <- m ;; k" := (Db.bind m (fun x => k))
  (at level 61, m at next level, right associativity) : db_scope.

(* ================================================================== *)
(** ** The API: [validateRequest] and the routes of [/api/users] *)

Module Server.

Import Db.
Local Open Scope string_scope.
Local Open Scope Z_scope.
Local Open Scope db_scope.

(** [schemas/user.schema.js]. *)
Definition userSchema : Zod.shape :=
  [ ("name", Zod.z_string [Zod.min 2 "Name must be at least 2 characters long"]);
    ("email", Zod.z_string [Zod.email "Invalid email address"]);
    ("avatar", Zod.optional (Zod.z_string [Zod.url "Avatar must be a valid URL"]));
    ("role", Zod.default (Zod.z_enum ["admin"; "user"] None) "user");
    ("status", Zod.default (Zod.z_enum ["active"; "inactive"] None) "active") ].

Definition userUpdateSchema : Zod.shape := Zod.partial userSchema.

(** What a handler sends: [res.json(...)] or [res.send()]. *)
Inductive payload : Type :=
| json_users (all : list user)
| json_user (u : user)
| json_id (id : Z)
| json_message (message : string)
| json_validation (message : string) (errors : list (string * Zod.message))
| no_content.

Record response : Type := { statusCode : Z; body : payload }.

(** The messages, as code units. *)
Definition formato_de_id_invalido : string :=
  Eval vm_compute in JS.code_units "Formato de ID inválido".

Definition usuario_nao_encontrado : string :=
  Eval vm_compute in JS.code_units "Usuário não encontrado".

Definition email_ja_existe : string :=
  Eval vm_compute in JS.code_units "Email já existe".

Definition invalid_id : response :=
  {| statusCode := 400; body := json_message formato_de_id_invalido |}.

Definition not_found : response :=
  {| statusCode := 404; body := json_message usuario_nao_encontrado |}.

Definition conflict : response :=
  {| statusCode := 409; body := json_message email_ja_existe |}.

Definition internal_error : response :=
  {| statusCode := 500; body := json_message "Erro interno do servidor" |}.

(** [updatedUser[0]]. *)
Definition first (found : list user) : payload :=
  match found with
  | u :: _ => json_user u
  | [] => no_content
  end.

Section Routes.

Context {V : Zod.Validators} {E : Engine}.

(** A value that breaks the constraint of its field, as the table of the
    User entity lists them: a name of fewer than two characters, an
    e-mail that has not the syntax of one, an avatar that is no URL, a
    role other than admin and user, a status other than active and
    inactive; a value that is no text breaks the constraint of each of
    the five fields.  It is stated apart from the schemas, to be compared
    with what they refuse. *)
Definition violates_constraint (key : string) (value : Zod.json) : bool :=
  match value with
  | Zod.JString s =>
      if String.eqb key "name" then (String.length s <? 2)%nat
      else if String.eqb key "email" then negb (Zod.isEmail s)
      else if String.eqb key "avatar" then negb (Zod.isUrl s)
      else if String.eqb key "role"
      then negb (String.eqb s "admin" || String.eqb s "user")
      else if String.eqb key "status"
      then negb (String.eqb s "active" || String.eqb s "inactive")
      else false
  | _ => existsb (String.eqb key) ["name"; "email"; "avatar"; "role"; "status"]
  end.

(** [error.errors.map(err => ({ path: err.path.join('.'), message:
    err.message }))]. *)
Definition listed (errors : list Zod.issue) : list (string * Zod.message) :=
  map (fun err => (Zod.join "." (Zod.path err), Zod.msg err)) errors.

(** The 400 of [validateRequest]. *)
Definition validation_error (errors : list Zod.issue) : response :=
  {| statusCode := 400; body := json_validation "Validation error" (listed errors) |}.

(** [validateRequest(schema)]: the handler [next] runs on the validated
    data, which replaces [req.body]; a rejected body never reaches it.
    [parseAsync] throws nothing but a [ZodError], so the 500 of the
    middleware is never sent. *)
Definition validateRequest (schema : Zod.shape) (next : Zod.object -> M response)
                           (body : Zod.json) : M response :=
  match Zod.parse_object schema body with
  | inr validatedData => next validatedData
  | inl errors => ret (validation_error errors)
  end.

(** The [catch] of the two writing routes. *)
Definition on_write_error (error : error_code) : M response :=
  if error_code_eqb error ER_DUP_ENTRY then ret conflict else ret internal_error.

(** [router.get('/')]. *)
Definition get_users : M response :=
  try_catch
    (allUsers <- select_all ;;
     ret {| statusCode := 200; body := json_users allUsers |})
    (fun _ => ret internal_error).

(** [router.get('/:id')]. *)
Definition get_user (param : string) : M response :=
  try_catch
    (let id := JS.Number param in
     if JS.isNaN id then ret invalid_id
     else
       found <- select_where_id id ;;
       match found with
       | [] => ret not_found
       | u :: _ => ret {| statusCode := 200; body := json_user u |}
       end)
    (fun _ => ret internal_error).

(** The handler of [router.post('/')], on the validated body. *)
Definition create (now : Z) (body : Zod.object) : M response :=
  try_catch
    (result <- insert body now ;;
     ret {| statusCode := 201; body := json_id result |})
    on_write_error.

(** [router.post('/', validateRequest(userSchema), ...)]. *)
Definition post_user (body : Zod.json) (now : Z) : M response :=
  validateRequest userSchema (create now) body.

(** The handler of [router.put('/:id')], on the validated body. *)
Definition modify (param : string) (now : Z) (body : Zod.object) : M response :=
  try_catch
    (let id := JS.Number param in
     if JS.isNaN id then ret invalid_id
     else
       existingUser <- select_where_id id ;;
       match existingUser with
       | [] => ret not_found
       | _ :: _ =>
           _ <- update id body now ;;
           updatedUser <- select_where_id id ;;
           ret {| statusCode := 200; body := first updatedUser |}
       end)
    on_write_error.

(** [router.put('/:id', validateRequest(userUpdateSchema), ...)]. *)
Definition put_user (param : string) (body : Zod.json) (now : Z) : M response :=
  validateRequest userUpdateSchema (modify param now) body.

(** [router.delete('/:id')]. *)
Definition delete_user (param : string) : M response :=
  try_catch
    (let id := JS.Number param in
     if JS.isNaN id then ret invalid_id
     else
       existingUser <- select_where_id id ;;
       match existingUser with
       | [] => ret not_found
       | _ :: _ =>
           _ <- delete id ;;
           ret {| statusCode := 204; body := no_content |}
       end)
    (fun _ => ret internal_error).

(** A request to [/api/users]. *)
Inductive request : Type :=
| GET_users
| GET_user (param : string)
| POST_user (body : Zod.json)
| PUT_user (param : string) (body : Zod.json)
| DELETE_user (param : string).

(** The router: one request, one handler. *)
Definition serve (req : request) (now : Z) : M response :=
  match req with
  | GET_users => get_users
  | GET_user param => get_user param
  | POST_user body => post_user body now
  | PUT_user param body => put_user param body now
  | DELETE_user param => delete_user param
  end.

(** The table after a sequence of requests, each with the time it is
    served at. *)
Fixpoint run (reqs : list (request * Z)) (db : database) : database :=
  match reqs with
  | [] => db
  | (req, now) :: rest => run rest (snd (serve req now db))
  end.

(** The path parameter reads as the integer [n]. *)
Definition names (param : string) (n : Z) : Prop :=
  JS.equals_int (JS.Number param) n = true.

(** A column after an update, against the property [supplied] of the
    request: the string supplied, or the value the row had. *)
Definition set_or_kept (supplied : option Zod.json) (before after : string) : Prop :=
  match supplied with
  | Some j => j = Zod.JString after
  | None => after = before
  end.

Definition avatar_set_or_kept (supplied : option Zod.json) (before after : option string)
  : Prop :=
  match supplied with
  | Some j => exists a, j = Zod.JString a /\ after = Some a
  | None => after = before
  end.

End Routes.

End Server.

(* ================================================================== *)
(** ** The client: the form schema and the submit path of [UserForm] *)

Module Client.

Local Open Scope string_scope.

Definition email_invalido : string :=
  Eval vm_compute in JS.code_units "Email inválido".

Definition url_invalida : string :=
  Eval vm_compute in JS.code_units "URL inválida".

(** [schemas/userSchema.js] of the front end. *)
Definition userSchema : Zod.shape :=
  [ ("name", Zod.z_string
       [Zod.min 2 "Nome deve ter pelo menos 2 caracteres"]);
    ("email", Zod.z_string
       [Zod.email email_invalido]);
    ("avatar", Zod.or
       (Zod.optional
          (Zod.z_string [Zod.url url_invalida]))
       (Zod.z_literal ""));
    ("role", Zod.default
       (Zod.z_enum ["admin"; "user"] (Some "Papel deve ser admin ou user")) "user");
    ("status", Zod.default
       (Zod.z_enum ["active"; "inactive"] (Some "Status deve ser active ou inactive"))
       "active") ].

Definition userUpdateSchema : Zod.shape := Zod.partial userSchema.

(** How a submission of the form ends. *)
Inductive submission : Type :=
| field_errors (errors : list Zod.issue)
| createUser (data : Zod.object)
| updateUser (id : string) (data : Zod.object)
| save_error.

(** [!!id], for the [id] of [useParams()]. *)
Definition isEditMode (id : option string) : bool :=
  match id with
  | Some s => negb (String.eqb s "")
  | None => false
  end.

(** [!data.avatar || data.avatar.trim() === '']. *)
Definition avatar_is_blank (data : Zod.object) : bool :=
  match Zod.get data "avatar" with
  | None => true
  | Some a => String.eqb a "" || String.eqb (JS.trim a) ""
  end.

Definition default_avatar (name : string) : string :=
  "https://ui-avatars.com/api/?name=" ++ JS.replace " " "+" name.

(** [onSubmit(data)]: reading [data.name.replace] of an absent name
    throws, which the [catch] turns into the error banner. *)
Definition onSubmit (id : option string) (data : Zod.object) : submission :=
  let prepared :=
    if avatar_is_blank data then
      match Zod.get data "name" with
      | Some n => Some (Zod.set data "avatar" (default_avatar n))
      | None => None
      end
    else Some data in
  match prepared with
  | None => save_error
  | Some sent =>
      if isEditMode id
      then updateUser (match id with Some s => s | None => "" end) sent
      else createUser sent
  end.

Section Form.

Context {V : Zod.Validators}.

(** The error a field gets for an issue: for the issue of a union,
    [error.unionErrors[0].errors[0]]. *)
Definition toFieldError (m : Zod.message) : Zod.message :=
  match m with
  | Zod.InvalidUnion (unionError :: _) => unionError
  | _ => m
  end.

(** [parseErrorSchema] of the resolver: one error for each
    [path.join('.')], that of its first issue ([if (!errors[_path])]);
    [seen] are the paths that have one. *)
Fixpoint parseErrorSchema (seen : list string) (zodErrors : list Zod.issue)
  : list Zod.issue :=
  match zodErrors with
  | [] => []
  | error :: rest =>
      let _path := Zod.join "." (Zod.path error) in
      if existsb (String.eqb _path) seen
      then parseErrorSchema seen rest
      else {| Zod.path := Zod.path error; Zod.msg := toFieldError (Zod.msg error) |}
           :: parseErrorSchema (_path :: seen) rest
  end.

(** [zodResolver(isEditMode ? userSchema.partial() : userSchema)]: the
    parsed data, or the errors of the fields. *)
Definition resolver (id : option string) (values : Zod.json)
  : list Zod.issue + Zod.object :=
  match Zod.parse_object (if isEditMode id then Zod.partial userSchema else userSchema)
                         values with
  | inr data => inr data
  | inl zodErrors => inl (parseErrorSchema [] zodErrors)
  end.

(** [handleSubmit(onSubmit)]: the resolver runs first, and [onSubmit]
    is called with its result only when it has no error. *)
Definition handleSubmit (id : option string) (values : Zod.json) : submission :=
  match resolver id values with
  | inl errors => field_errors errors
  | inr data => onSubmit id data
  end.

End Form.

End Client.

(* ================================================================== *)
(** ** An instance on which the service runs

    A stand-in for zod's e-mail pattern and for the URL parser, and an
    engine with a case-insensitive collation that refuses the statements
    the repository never issues.  The examples below run on it. *)

Module Sample.

Local Open Scope string_scope.

Fixpoint split_at (c : ascii) (s : string) : option (string * string) :=
  match s with
  | EmptyString => None
  | String d rest =>
      if Ascii.eqb c d then Some ("", rest)
      else match split_at c rest with
           | Some (l, r) => Some (String d l, r)
           | None => None
           end
  end.

Definition isEmail (s : string) : bool :=
  match split_at "@" s with
  | Some (local_part, domain) =>
      negb (String.eqb local_part "") &&
      match split_at "." domain with
      | Some (host, tld) => negb (String.eqb host "") && negb (String.eqb tld "")
      | None => false
      end
  | None => false
  end.

Definition isUrl (s : string) : bool :=
  (prefix "http://" s && (7 <? String.length s)%nat)
  || (prefix "https://" s && (8 <? String.length s)%nat).

#[export] Instance validators : Zod.Validators :=
  {| Zod.isEmail := isEmail; Zod.isUrl := isUrl; Zod.isUrl_empty := eq_refl |}.

Definition lower (c : ascii) : ascii :=
  let n := N_of_ascii c in
  if ((65 <=? n) && (n <=? 90))%N then ascii_of_N (n + 32) else c.

Fixpoint lowercase (s : string) : string :=
  match s with
  | EmptyString => EmptyString
  | String c rest => String (lower c) (lowercase rest)
  end.

#[export] Instance engine : Db.Engine :=
  {| Db.collate := lowercase;
     Db.nonfinite_id := Some Db.ER_BAD_FIELD_ERROR;
     Db.insert_system_columns := fun _ _ => Db.throw Db.ER_BAD_FIELD_ERROR;
     Db.update_system_columns := fun _ _ _ => Db.throw Db.ER_BAD_FIELD_ERROR |}.

Definition empty_table : Db.database := {| Db.rows := []; Db.auto_increment := 1 |}.

(** The body of the example of the specification. *)
Definition ana : Zod.json :=
  Zod.JObject [ ("name", Zod.JString "Ana Silva");
                ("email", Zod.JString "ana@x.com");
                ("role", Zod.JString "user");
                ("status", Zod.JString "active") ].

(** The row it creates in [empty_table] at time [now]. *)
Definition ana_row (now : Z) : Db.user :=
  {| Db.id := 1; Db.name := "Ana Silva"; Db.email := "ana@x.com";
     Db.avatar := None; Db.role := "user"; Db.status := "active";
     Db.createdAt := now; Db.updatedAt := now |}.

Definition ana_table (now : Z) : Db.database :=
  {| Db.rows := [ana_row now]; Db.auto_increment := 2 |}.

(** What validation hands over for [ana]. *)
Definition ana_validated : Zod.object :=
  [ ("name", "Ana Silva"); ("email", "ana@x.com"); ("role", "user"); ("status", "active") ].

(** [ana], with an avatar. *)
Definition ana_with_avatar (a : string) : Zod.json :=
  Zod.JObject [ ("name", Zod.JString "Ana Silva"); ("email", Zod.JString "ana@x.com");
            ("avatar", Zod.JString a); ("role", Zod.JString "user");
            ("status", Zod.JString "active") ].

(** A second request with the e-mail of [ana]. *)
Definition ana_again : Zod.json :=
  Zod.JObject [ ("name", Zod.JString "Ana Souza"); ("email", Zod.JString "ana@x.com") ].

Definition rename : Zod.json := Zod.JObject [ ("name", Zod.JString "Ana Souza") ].

(** The row of [ana] after [rename] at time [now]. *)
Definition renamed_row (created now : Z) : Db.user :=
  {| Db.id := 1; Db.name := "Ana Souza"; Db.email := "ana@x.com"; Db.avatar := None;
     Db.role := "user"; Db.status := "active"; Db.createdAt := created;
     Db.updatedAt := now |}.

(** A body that names the system columns. *)
Definition forged : Zod.json :=
  Zod.JObject [ ("id", Zod.JNumber (JS.Number "99")); ("name", Zod.JString "Ana Silva");
            ("email", Zod.JString "ana@x.com"); ("createdAt", Zod.JString "2000-01-01");
            ("updatedAt", Zod.JString "2000-01-01"); ("isAdmin", Zod.JBool true) ].

End Sample.

(* ================================================================== *)
(** ** More of JavaScript: arrays, division, template literals *)

Module JSLib.

Local Open Scope Z_scope.

(** [array.slice(start, end)]; [None] is an [end] left out.  A negative
    index counts from the end of the array. *)
Definition slice {A : Type} (start : Z) (end_ : option Z) (l : list A) : list A :=
  let len := Z.of_nat (List.length l) in
  let relative i := if i <? 0 then Z.max (len + i) 0 else Z.min i len in
  let k := relative start in
  let final := match end_ with
               | Some e => relative e
               | None => len
               end in
  firstn (Z.to_nat (final - k)) (skipn (Z.to_nat k) l).

(** [Math.ceil(a / b)] for an array length [a] and a positive integer
    [b]: the quotient of two such numbers is rounded to a double without
    reaching the next integer, so the result is the exact ceiling. *)
Definition ceil_div (a b : Z) : Z := - ((- a) / b).

(** [`${n}`] for an integer [n] that is not negative: its decimal
    digits. *)
Definition decimal (n : N) : string := NilZero.string_of_uint (N.to_uint n).

End JSLib.

(* ================================================================== *)
(** ** The client: the list page and its pagination *)

Module Pagination.

Local Open Scope Z_scope.

(** What the component shows between its two arrows: the button of a
    page, or ['...']. *)
Inductive item : Type :=
| page (n : Z)
| ellipsis.

(** [for (let i = 1; i <= totalPages; i++) pages.push(i)]. *)
Definition pages (totalPages : Z) : list Z :=
  map Z.of_nat (seq 1 (Z.to_nat totalPages)).

Definition pagesToShow (currentPage totalPages : Z) : list item :=
  if totalPages <=? 5 then map page (pages totalPages)
  else if currentPage <=? 3
  then map page (JSLib.slice 0 (Some 5) (pages totalPages))
       ++ [ellipsis; page totalPages]
  else if totalPages - 2 <=? currentPage
  then [page 1; ellipsis]
       ++ map page (JSLib.slice (totalPages - 5) None (pages totalPages))
  else [page 1; ellipsis; page (currentPage - 1); page currentPage;
        page (currentPage + 1); ellipsis; page totalPages].

(** The numbers of the page buttons, in order. *)
Fixpoint numbers (items : list item) : list Z :=
  match items with
  | [] => []
  | page n :: rest => n :: numbers rest
  | ellipsis :: rest => numbers rest
  end.

(** The arrow to the previous page: [None] when it is disabled, the page
    it asks for otherwise. *)
Definition previous (currentPage : Z) : option Z :=
  if currentPage =? 1 then None else Some (currentPage - 1).

(** The arrow to the next page. *)
Definition next (currentPage totalPages : Z) : option Z :=
  if currentPage =? totalPages then None else Some (currentPage + 1).

(** The pages [onPageChange] can be called with, from one rendering. *)
Definition reachable (currentPage totalPages : Z) : list Z :=
  match previous currentPage with Some p => [p] | None => [] end
  ++ numbers (pagesToShow currentPage totalPages)
  ++ match next currentPage totalPages with Some p => [p] | None => [] end.

End Pagination.

Module UserList.

Local Open Scope string_scope.
Local Open Scope Z_scope.

(** The state of the page: the users as the API sent them, the two flags
    and the page shown. *)
Record state : Type := {
  users : list Db.user;
  loading : bool;
  error : option string;
  currentPage : Z
}.

Definition usersPerPage : Z := 5.

Definition erro_ao_carregar : string :=
  Eval vm_compute in
    JS.code_units "Erro ao carregar usuários. Por favor, tente novamente.".

Definition erro_ao_excluir : string :=
  Eval vm_compute in
    JS.code_units "Erro ao excluir usuário. Por favor, tente novamente.".

Definition initial : state :=
  {| users := []; loading := true; error := None; currentPage := 1 |}.

(** [fetchUsers], on what [userService.getAllUsers()] gave: the users,
    or [None] when it threw. *)
Definition fetchUsers (data : option (list Db.user)) (st : state) : state :=
  match data with
  | Some all => {| users := all; loading := false; error := None;
                   currentPage := currentPage st |}
  | None => {| users := users st; loading := false; error := Some erro_ao_carregar;
               currentPage := currentPage st |}
  end.

(** [handleDeleteUser(userId)]; [deleted] tells whether
    [userService.deleteUser(userId)] returned or threw. *)
Definition handleDeleteUser (deleted : bool) (userId : Z) (st : state) : state :=
  if deleted
  then {| users := filter (fun user => negb (Db.id user =? userId)) (users st);
          loading := loading st; error := error st; currentPage := currentPage st |}
  else {| users := users st; loading := loading st; error := Some erro_ao_excluir;
          currentPage := currentPage st |}.

Definition handlePageChange (pageNumber : Z) (st : state) : state :=
  {| users := users st; loading := loading st; error := error st;
     currentPage := pageNumber |}.

Definition indexOfLastUser (st : state) : Z := currentPage st * usersPerPage.

Definition indexOfFirstUser (st : state) : Z := indexOfLastUser st - usersPerPage.

Definition currentUsers (st : state) : list Db.user :=
  JSLib.slice (indexOfFirstUser st) (Some (indexOfLastUser st)) (users st).

Definition totalPages (st : state) : Z :=
  JSLib.ceil_div (Z.of_nat (List.length (users st))) usersPerPage.

(** [users.length > usersPerPage]: the pagination is rendered. *)
Definition shows_pagination (st : state) : bool :=
  usersPerPage <? Z.of_nat (List.length (users st)).

(** What the page renders once loaded: the empty notice, or the cards
    of the current page and, when rendered, what the pagination shows. *)
Inductive view : Type :=
| spinner
| nenhum_usuario (banner : option string)
| cards (banner : option string) (shown : list Db.user)
        (pagination : option (list Pagination.item)).

Definition render (st : state) : view :=
  if loading st then spinner
  else match users st with
       | [] => nenhum_usuario (error st)
       | _ :: _ =>
           cards (error st) (currentUsers st)
                 (if shows_pagination st
                  then Some (Pagination.pagesToShow (currentPage st) (totalPages st))
                  else None)
       end.

End UserList.

(* ================================================================== *)
(** ** What a request does to the table, and what the table keeps *)

Module Table.

Import Db.
Local Open Scope string_scope.
Local Open Scope Z_scope.

Section WithService.

Context {V : Zod.Validators} {E : Engine}.

(** The ways a request leaves the table, with what the handler checked
    on the way. *)
Inductive change (db : database) : database -> Prop :=
| kept : change db db
| counter_used :
    change db {| rows := rows db; auto_increment := auto_increment db + 1 |}
| row_created (body : Zod.json) (vals : Zod.object) (n e : string) (now : Z) :
    Zod.parse_object Server.userSchema body = inr vals ->
    Zod.get vals "name" = Some n ->
    Zod.get vals "email" = Some e ->
    any_too_long vals = false ->
    email_in_use e db = false ->
    change db {| rows := rows db ++ [inserted vals n e now db];
                 auto_increment := auto_increment db + 1 |}
| rows_modified (x : spec_float) (body : Zod.json) (vals : Zod.object) (now : Z) :
    Zod.parse_object Server.userUpdateSchema body = inr vals ->
    JS.isFinite x = true ->
    any_too_long vals = false ->
    email_taken x vals db = false ->
    change db (updated x vals now db)
| rows_deleted (x : spec_float) :
    JS.isFinite x = true ->
    change db {| rows := filter (fun u => negb (id_is x u)) (rows db);
                 auto_increment := auto_increment db |}.

(** No two rows have the same id. *)
Definition ids_distinct (db : database) : Prop := NoDup (map id (rows db)).

(** No two rows have e-mails that collide on the unique index. *)
Definition emails_distinct (db : database) : Prop :=
  ForallOrdPairs (fun u w => same_email (email u) (email w) = false) (rows db).

(** The row passes the checks of the create schema. *)
Definition conforms (u : user) : bool :=
  (2 <=? String.length (name u))%nat
  && Zod.isEmail (email u)
  && match avatar u with
     | Some a => Zod.isUrl a
     | None => true
     end
  && (String.eqb (role u) "admin" || String.eqb (role u) "user")
  && (String.eqb (status u) "active" || String.eqb (status u) "inactive").

End WithService.

End Table.

(* ================================================================== *)
(** ** More sample data *)

Module Scenes.

Import Sample.
Local Open Scope string_scope.
Local Open Scope Z_scope.

(** A conforming row with the id [n]. *)
Definition member (n : Z) : Db.user :=
  {| Db.id := n;
     Db.name := "User " ++ JSLib.decimal (Z.to_N n);
     Db.email := "user" ++ JSLib.decimal (Z.to_N n) ++ "@x.com";
     Db.avatar := None; Db.role := "user"; Db.status := "active";
     Db.createdAt := 1000; Db.updatedAt := 1000 |}.

(** A table with the ids 1 to [count]. *)
Definition members (count : nat) : Db.database :=
  {| Db.rows := map (fun i => member (Z.of_nat i)) (seq 1 count);
     Db.auto_increment := Z.of_nat count + 1 |}.

(** The list page, loaded with [members count], on the page [p]. *)
Definition listing (count : nat) (p : Z) : UserList.state :=
  {| UserList.users := Db.rows (members count); UserList.loading := false;
     UserList.error := None; UserList.currentPage := p |}.

(** A day of requests: a creation, an update, a creation that collides,
    a deletion, a creation. *)
Definition session : list (Server.request * Z) :=
  [ (Server.POST_user ana, 1000);
    (Server.PUT_user "1" rename, 2000);
    (Server.POST_user ana_again, 3000);
    (Server.DELETE_user "2", 4000);
    (Server.POST_user (ana_with_avatar "https://x.com/a.png"), 5000) ].

(** What the form holds for [ana] when the avatar is left empty, and
    what it sends. *)
Definition ana_form : Zod.json := ana_with_avatar "".

Definition ana_sent : Zod.object :=
  [ ("name", "Ana Silva"); ("email", "ana@x.com");
    ("avatar", "https://ui-avatars.com/api/?name=Ana+Silva");
    ("role", "user"); ("status", "active") ].

End Scenes.

(* ================================================================== *)
(** ** Facts about parsing *)

Module ZodFacts.

Import Zod.
Local Open Scope string_scope.

Lemma get_not_in {A : Type} (props : list (string * A)) (key : string) :
  ~ In key (keys props) -> get props key = None.
Proof.
  induction props as [|[k v] rest IH]; simpl; intros Hnot; [reflexivity|].
  destruct (String.eqb_spec k key) as [->|Hne].
  - exfalso; apply Hnot; now left.
  - apply IH; intros Hin; apply Hnot; now right.
Qed.

Lemma get_in {A : Type} (props : list (string * A)) (key : string) (v : A) :
  get props key = Some v -> In key (keys props).
Proof.
  induction props as [|[k w] rest IH]; simpl; [discriminate|].
  destruct (String.eqb_spec k key) as [->|Hne]; intros H; [now left|right; auto].
Qed.

Lemma get_set_same {A : Type} (props : list (string * A)) (key : string) (v : A) :
  get (set props key v) key = Some v.
Proof.
  induction props as [|[k w] rest IH]; simpl.
  - now rewrite String.eqb_refl.
  - destruct (String.eqb_spec k key) as [->|Hne]; simpl.
    + now rewrite String.eqb_refl.
    + destruct (String.eqb_spec k key); [contradiction|exact IH].
Qed.

Lemma get_set_other {A : Type} (props : list (string * A)) (key other : string) (v : A) :
  other <> key -> get (set props key v) other = get props other.
Proof.
  intros Hne.
  induction props as [|[k w] rest IH]; simpl.
  - destruct (String.eqb_spec key other); [congruence|reflexivity].
  - destruct (String.eqb_spec k key) as [->|Hk]; simpl.
    + destruct (String.eqb_spec key other); [congruence|reflexivity].
    + destruct (String.eqb_spec k other); [reflexivity|exact IH].
Qed.

Lemma keys_partial (sh : shape) : keys (partial sh) = keys sh.
Proof.
  induction sh as [|[k s] rest IH]; simpl; [reflexivity|now rewrite IH].
Qed.

Lemma get_partial (sh : shape) (key : string) :
  get (partial sh) key = option_map optional (get sh key).
Proof.
  induction sh as [|[k s] rest IH]; simpl; [reflexivity|].
  destruct (String.eqb k key); [reflexivity|exact IH].
Qed.

Section WithValidators.

Context {V : Validators}.

(** A rejection always carries an issue. *)
Lemma parse_rejects_with_issue (s : schema) (data : option json) :
  kept (parse s data) = None -> raised (parse s data) <> [].
Proof.
  revert data.
  induction s as [checks|values errorMap|value|inner IH|inner IH value|s1 IH1 s2 IH2];
    intros data; simpl.
  - destruct data as [[| | |v| |]|]; try (intros _; discriminate).
    destruct (flat_map _ checks) eqn:Hc; simpl; [discriminate|intros _; discriminate].
  - destruct data as [[| | |v| |]|]; try (intros _; discriminate).
    destruct (existsb _ values); simpl; [discriminate|intros _; discriminate].
  - destruct data as [[| | |v| |]|]; try (intros _; discriminate).
    destruct (String.eqb v value); simpl; [discriminate|intros _; discriminate].
  - destruct data; [apply IH|discriminate].
  - destruct data; apply IH.
  - specialize (IH1 data). specialize (IH2 data).
    destruct (parse s1 data) as [v1|m1|m1], (parse s2 data) as [v2|m2|m2];
      simpl in *; auto; discriminate.
Qed.

(** A value that is accepted is a string, and is kept as it is. *)
Lemma parse_keeps_string (s : schema) (j : json) (v : option string) :
  parse s (Some j) = OK v -> exists str, j = JString str /\ v = Some str.
Proof.
  revert v.
  induction s as [checks|values errorMap|value|inner IH|inner IH value|s1 IH1 s2 IH2];
    intros v; simpl.
  - destruct j; try discriminate.
    destruct (flat_map _ checks); [|discriminate].
    intros [= <-]; eauto.
  - destruct j; try discriminate.
    destruct (existsb _ values); [|discriminate].
    intros [= <-]; eauto.
  - destruct j; try discriminate.
    destruct (String.eqb s value); [|discriminate].
    intros [= <-]; eauto.
  - apply IH.
  - apply IH.
  - destruct (parse s1 (Some j)) as [v1|m1|m1] eqn:H1,
             (parse s2 (Some j)) as [v2|m2|m2] eqn:H2;
      try discriminate; intros [= <-]; auto.
Qed.

Lemma parse_shape_spec (sh : shape) (props : list (string * json)) :
  parse_shape sh props = (flat_map (issues_of props) sh, flat_map (output_of props) sh).
Proof.
  induction sh as [|[k s] rest IH]; simpl; [reflexivity|].
  rewrite IH. unfold issues_of, output_of; simpl.
  destruct (parse s (get props k)) as [[v|]|msgs|msgs]; reflexivity.
Qed.

Lemma keys_output (sh : shape) (props : list (string * json)) (key : string) :
  In key (keys (flat_map (output_of props) sh)) -> In key (keys sh).
Proof.
  induction sh as [|[k s] rest IH]; simpl; [tauto|].
  unfold keys in *. rewrite map_app, in_app_iff.
  intros [H|H]; [left|right; auto].
  unfold output_of in H; simpl in H.
  destruct (parse s (get props k)) as [[v|]|msgs|msgs]; simpl in H; tauto.
Qed.

(** The output holds, under each key of the shape, what its schema kept. *)
Lemma get_output (sh : shape) (props : list (string * json)) (key : string) :
  NoDup (keys sh) ->
  get (flat_map (output_of props) sh) key =
  match get sh key with
  | Some s => match parse s (get props key) with
              | OK v => v
              | _ => None
              end
  | None => None
  end.
Proof.
  induction sh as [|[k s] rest IH]; simpl; [reflexivity|].
  intros Hnd. inversion Hnd as [|? ? Hnotin Hnd']; subst.
  destruct (String.eqb_spec k key) as [->|Hne].
  - unfold output_of at 1; simpl.
    assert (Hrest : get (flat_map (output_of props) rest) key = None).
    { apply get_not_in. intros Hin. apply Hnotin. eapply keys_output; eauto. }
    destruct (parse s (get props key)) as [[v|]|msgs|msgs]; simpl;
      try exact Hrest.
    now rewrite String.eqb_refl.
  - rewrite <- (IH Hnd').
    unfold output_of at 1; simpl.
    destruct (parse s (get props k)) as [[v|]|msgs|msgs]; simpl; try reflexivity.
    destruct (String.eqb_spec k key); [contradiction|reflexivity].
Qed.

(** No issue: every property of the shape was accepted. *)
Lemma no_issue_accepts (sh : shape) (props : list (string * json)) (key : string) (s : schema) :
  flat_map (issues_of props) sh = [] -> In (key, s) sh ->
  exists v, parse s (get props key) = OK v.
Proof.
  induction sh as [|[k s0] rest IH]; simpl; [tauto|].
  intros Happ Hin. apply app_eq_nil in Happ as [Hhead Htail].
  destruct Hin as [[= -> ->]|Hin]; [|auto].
  unfold issues_of in Hhead; simpl in Hhead. apply map_eq_nil in Hhead.
  destruct (parse s (get props key)) as [v|msgs|msgs] eqn:Hp; [eauto| |];
    exfalso; apply (parse_rejects_with_issue s (get props key));
    rewrite Hp; auto.
Qed.

(** An issue on every property that was refused. *)
Lemma refused_is_listed (sh : shape) (props : list (string * json)) (key : string)
      (s : schema) :
  In (key, s) sh -> kept (parse s (get props key)) = None ->
  exists m, In {| path := [key]; msg := m |} (flat_map (issues_of props) sh).
Proof.
  intros Hin Hp. apply parse_rejects_with_issue in Hp.
  destruct (raised (parse s (get props key))) as [|m rest] eqn:Hr; [congruence|].
  exists m. apply in_flat_map. exists (key, s). split; [exact Hin|].
  unfold issues_of; simpl. rewrite Hr. now left.
Qed.

(** Every issue of an object sits on a property of the shape that was
    refused. *)
Lemma listed_is_refused (sh : shape) (props : list (string * json)) (i : issue) :
  In i (flat_map (issues_of props) sh) ->
  exists key s, In (key, s) sh /\ kept (parse s (get props key)) = None /\
                path i = [key] /\ In (msg i) (raised (parse s (get props key))).
Proof.
  intros Hin. apply in_flat_map in Hin as [[k s] [Hsh Hi]].
  unfold issues_of in Hi; simpl in Hi.
  apply in_map_iff in Hi as [m [<- Hm]].
  exists k, s. repeat split; try assumption.
  now destruct (parse s (get props k)).
Qed.

(** What [parse_object] answers, in these terms. *)
Lemma parse_object_accepts (sh : shape) (body : json) (vals : object) :
  parse_object sh body = inr vals ->
  exists props, body = JObject props /\
                flat_map (issues_of props) sh = [] /\
                vals = flat_map (output_of props) sh.
Proof.
  destruct body; try discriminate. simpl.
  rewrite parse_shape_spec.
  destruct (flat_map (issues_of props) sh) eqn:Hi; [|discriminate].
  intros [= <-]. eauto.
Qed.

Lemma parse_object_rejects (sh : shape) (props : list (string * json)) (issues : list issue) :
  parse_object sh (JObject props) = inl issues ->
  issues = flat_map (issues_of props) sh /\ issues <> [].
Proof.
  simpl. rewrite parse_shape_spec.
  destruct (flat_map (issues_of props) sh) eqn:Hi; [discriminate|].
  intros [= <-]. split; [reflexivity|discriminate].
Qed.

(** Strip mode: the validated object has no key outside the shape. *)
Lemma parse_object_strips (sh : shape) (body : json) (vals : object) (key : string) :
  parse_object sh body = inr vals -> In key (keys vals) -> In key (keys sh).
Proof.
  intros Hp Hin.
  apply parse_object_accepts in Hp as [props [_ [_ ->]]].
  eapply keys_output; eauto.
Qed.

End WithValidators.

End ZodFacts.

(* ================================================================== *)
(** ** Facts about the two schemas of the API *)

Module SchemaFacts.

Import Zod ZodFacts.
Local Open Scope string_scope.

Lemma get_some_in {A : Type} (props : list (string * A)) (key : string) (v : A) :
  get props key = Some v -> In (key, v) props.
Proof.
  induction props as [|[k w] rest IH]; simpl; [discriminate|].
  destruct (String.eqb_spec k key) as [->|Hne].
  - intros [= ->]; now left.
  - intros H; right; auto.
Qed.

Section WithValidators.

Context {V : Validators}.

(** The validated object, read key by key. *)
Lemma validated (sh : shape) (body : json) (vals : object) :
  NoDup (keys sh) -> parse_object sh body = inr vals ->
  exists props,
    body = JObject props /\
    (forall key s, get sh key = Some s ->
                   exists v, parse s (get props key) = OK v /\ get vals key = v) /\
    (forall key, get sh key = None -> get vals key = None).
Proof.
  intros Hnd Hp.
  apply parse_object_accepts in Hp as [props [-> [Hnil ->]]].
  exists props. split; [reflexivity|]. split.
  - intros key s Hs.
    destruct (no_issue_accepts sh props key s Hnil (get_some_in _ _ _ Hs)) as [v Hv].
    exists v. split; [exact Hv|].
    rewrite get_output by exact Hnd. now rewrite Hs, Hv.
  - intros key Hs. rewrite get_output by exact Hnd. now rewrite Hs.
Qed.

Lemma userSchema_keys : keys Server.userSchema = ["name"; "email"; "avatar"; "role"; "status"].
Proof. reflexivity. Qed.

Lemma userSchema_NoDup : NoDup (keys Server.userSchema).
Proof.
  rewrite userSchema_keys.
  repeat (constructor; [simpl; intuition discriminate|]). constructor.
Qed.

Lemma userUpdateSchema_NoDup : NoDup (keys Server.userUpdateSchema).
Proof. unfold Server.userUpdateSchema. rewrite keys_partial. exact userSchema_NoDup. Qed.

(** A body the create schema accepts, and what validation hands over:
    the strings of the body, and the defaults of [role] and [status]. *)
Lemma userSchema_validated (body : json) (vals : object) :
  parse_object Server.userSchema body = inr vals ->
  exists props n e,
    body = JObject props /\
    get props "name" = Some (JString n) /\ get vals "name" = Some n /\
    get props "email" = Some (JString e) /\ get vals "email" = Some e /\
    get vals "avatar" = as_string (get props "avatar") /\
    get vals "role" = Some (Db.or_default (as_string (get props "role")) "user") /\
    get vals "status" = Some (Db.or_default (as_string (get props "status")) "active").
Proof.
  intros Hp.
  destruct (validated _ _ _ userSchema_NoDup Hp) as [props [-> [Hin _]]].
  destruct (Hin "name" _ eq_refl) as [vn [Pn Gn]].
  destruct (Hin "email" _ eq_refl) as [ve [Pe Ge]].
  destruct (Hin "avatar" _ eq_refl) as [va [Pa Ga]].
  destruct (Hin "role" _ eq_refl) as [vr [Pr Gr]].
  destruct (Hin "status" _ eq_refl) as [vs [Ps Gs]].
  destruct (get props "name") as [jn|] eqn:En; [|discriminate].
  destruct (get props "email") as [je|] eqn:Ee; [|discriminate].
  apply parse_keeps_string in Pn as [n [-> ->]].
  apply parse_keeps_string in Pe as [e [-> ->]].
  exists props, n, e. repeat split; try assumption.
  - destruct (get props "avatar") as [ja|].
    + apply parse_keeps_string in Pa as [a [-> ->]]. exact Ga.
    + simpl in Pa. injection Pa as <-. exact Ga.
  - destruct (get props "role") as [jr|].
    + apply parse_keeps_string in Pr as [r [-> ->]]. exact Gr.
    + vm_compute in Pr. injection Pr as <-. exact Gr.
  - destruct (get props "status") as [js|].
    + apply parse_keeps_string in Ps as [s [-> ->]]. exact Gs.
    + vm_compute in Ps. injection Ps as <-. exact Gs.
Qed.

(** A body the update schema accepts: each of the five properties is
    absent or a string, and is handed over as it is; nothing is added. *)
Lemma userUpdateSchema_validated (body : json) (vals : object) :
  parse_object Server.userUpdateSchema body = inr vals ->
  exists props,
    body = JObject props /\
    forall key, In key (keys Server.userSchema) ->
      get vals key = as_string (get props key) /\
      (get props key = None \/ exists s, get props key = Some (JString s)).
Proof.
  intros Hp.
  destruct (validated _ _ _ userUpdateSchema_NoDup Hp) as [props [-> [Hin _]]].
  exists props. split; [reflexivity|].
  intros key Hkey.
  assert (Hs : exists s, get Server.userUpdateSchema key = Some (optional s)).
  { rewrite userSchema_keys in Hkey. simpl in Hkey.
    destruct Hkey as [<-|[<-|[<-|[<-|[<-|[]]]]]]; eexists; reflexivity. }
  destruct Hs as [s Hs].
  destruct (Hin key _ Hs) as [v [Pv Gv]].
  destruct (get props key) as [j|].
  - apply parse_keeps_string in Pv as [str [-> ->]].
    split; [exact Gv|right; eauto].
  - simpl in Pv. injection Pv as <-. split; [exact Gv|now left].
Qed.

(** Neither schema lets a system column through. *)
Lemma validated_without_system_columns (sh : shape) (body : json) (vals : object)
      (columns : list string) :
  keys sh = keys Server.userSchema ->
  parse_object sh body = inr vals ->
  (forall c, In c columns -> ~ In c (keys Server.userSchema)) ->
  Db.mentions vals columns = false.
Proof.
  intros Hk Hp Hcols. unfold Db.mentions.
  induction columns as [|c rest IH]; simpl; [reflexivity|].
  rewrite get_not_in.
  - apply IH. intros c' Hc'. apply Hcols. now right.
  - intros Hin. apply (Hcols c); [now left|].
    rewrite <- Hk. eapply parse_object_strips; eauto.
Qed.

Lemma system_columns_outside :
  forall c, In c ["id"; "createdAt"; "updatedAt"] -> ~ In c (keys Server.userSchema).
Proof.
  rewrite userSchema_keys. simpl. intros c H Hin.
  destruct H as [<-|[<-|[<-|[]]]]; intuition discriminate.
Qed.

End WithValidators.

End SchemaFacts.

(* ================================================================== *)
(** ** Facts about the routes *)

Module RouteFacts.

Import Zod ZodFacts SchemaFacts Db Server.
Local Open Scope string_scope.
Local Open Scope Z_scope.

Section WithService.

Context {V : Validators} {E : Engine}.

(** The four ways the create handler ends, on values without a system
    column. *)
Lemma create_cases (now : Z) (vals : object) (db : database) :
  mentions vals system_columns = false ->
  create now vals db =
  match get vals "name", get vals "email" with
  | Some n, Some e =>
      if any_too_long vals then (inr internal_error, db)
      else if email_in_use e db
      then (inr conflict, {| rows := rows db; auto_increment := auto_increment db + 1 |})
      else (inr {| statusCode := 201; body := json_id (auto_increment db) |},
            {| rows := rows db ++ [inserted vals n e now db];
               auto_increment := auto_increment db + 1 |})
  | _, _ => (inr internal_error, db)
  end.
Proof.
  intros Hm. unfold create, try_catch, bind, insert.
  rewrite Hm.
  destruct (get vals "name") as [n|]; [|reflexivity].
  destruct (get vals "email") as [e|]; [|reflexivity].
  destruct (any_too_long vals); [reflexivity|].
  destruct (email_in_use e db); reflexivity.
Qed.

Lemma post_user_validated (body : json) (now : Z) (db : database) (vals : object) :
  parse_object userSchema body = inr vals ->
  post_user body now db = create now vals db /\ mentions vals system_columns = false.
Proof.
  intros Hp. split.
  - unfold post_user, validateRequest. now rewrite Hp.
  - eapply validated_without_system_columns; eauto using system_columns_outside.
Qed.

Lemma post_user_rejected (body : json) (now : Z) (db : database) (errors : list issue) :
  parse_object userSchema body = inl errors ->
  post_user body now db = (inr (validation_error errors), db).
Proof.
  intros Hp. unfold post_user, validateRequest. now rewrite Hp.
Qed.

Lemma put_user_rejected (param : string) (body : json) (now : Z) (db : database)
      (errors : list issue) :
  parse_object userUpdateSchema body = inl errors ->
  put_user param body now db = (inr (validation_error errors), db).
Proof.
  intros Hp. unfold put_user, validateRequest. now rewrite Hp.
Qed.

End WithService.

End RouteFacts.

(* ================================================================== *)
(** ** Creating users *)

Module Creating.

Import Zod ZodFacts SchemaFacts Db Server RouteFacts.
Local Open Scope string_scope.
Local Open Scope Z_scope.

Section WithService.

Context {V : Validators} {E : Engine}.



(** C1, as the code has it: for every body the create schema accepts,
    whose values fit the columns and whose e-mail is not in use, POST
    /api/users answers 201 and the body of the answer holds the id of the
    new row and nothing else.  The row added to the table carries that
    id, the strings of the request, the defaults of role and status, a
    null avatar when none was sent, and createdAt equal to updatedAt. *)
Theorem post_creates_row_and_returns_id
        (body : json) (now : Z) (db : database) (vals : object) :
  parse_object userSchema body = inr vals ->
  any_too_long vals = false ->
  (forall e, get vals "email" = Some e -> email_in_use e db = false) ->
  exists props u,
    body = JObject props /\
    post_user body now db =
      (inr {| statusCode := 201; body := json_id (id u) |},
       {| rows := rows db ++ [u]; auto_increment := auto_increment db + 1 |}) /\
    id u = auto_increment db /\
    get props "name" = Some (JString (name u)) /\
    get props "email" = Some (JString (email u)) /\
    avatar u = as_string (get props "avatar") /\
    role u = or_default (as_string (get props "role")) "user" /\
    status u = or_default (as_string (get props "status")) "active" /\
    createdAt u = now /\ updatedAt u = createdAt u.
Proof.
  intros Hp Hfit Hfree.
  destruct (post_user_validated body now db vals Hp) as [Hpost Hsys].
  destruct (userSchema_validated body vals Hp)
    as [props [n [e [-> [Pn [Gn [Pe [Ge [Ga [Gr Gs]]]]]]]]]].
  exists props, (inserted vals n e now db).
  rewrite Hpost, (create_cases now vals db Hsys), Gn, Ge, Hfit, (Hfree e Ge).
  unfold inserted; simpl. rewrite Ga, Gr, Gs. simpl.
  repeat split; assumption.
Qed.



(** C2, as the code has it: the API never derives an avatar.  A create
    request without an avatar is not refused for it, and when it is
    created the row holds a null avatar; whatever avatar a created row
    holds is the string that was sent.  An avatar that is the empty
    string is not accepted: the request is answered 400 with an issue on
    [avatar], and the table is left as it was. *)
Theorem avatar_is_stored_as_received (props : list (string * json)) (now : Z) (db : database) :
  (get props "avatar" = Some (JString "") ->
   exists errors,
     post_user (JObject props) now db = (inr (validation_error errors), db) /\
     In {| path := ["avatar"]; msg := Custom "Avatar must be a valid URL" |} errors) /\
  (get props "avatar" = None ->
   forall errors i,
     parse_object userSchema (JObject props) = inl errors ->
     In i errors -> path i <> ["avatar"]) /\
  (forall r db',
     post_user (JObject props) now db = (inr r, db') -> statusCode r = 201 ->
     exists u, rows db' = (rows db ++ [u])%list /\
               avatar u = as_string (get props "avatar")).
Proof.
  split; [|split].
  - intros Ha.
    assert (Hp : parse (optional (z_string [url "Avatar must be a valid URL"]))
                       (get props "avatar")
                 = DIRTY [Custom "Avatar must be a valid URL"]).
    { rewrite Ha. simpl. now rewrite isUrl_empty. }
    destruct (parse_object userSchema (JObject props)) as [errors|vals] eqn:Hobj.
    + exists errors. split; [now apply post_user_rejected|].
      apply parse_object_rejects in Hobj as [-> _].
      apply in_flat_map. exists ("avatar", optional (z_string [url "Avatar must be a valid URL"])).
      split; [simpl; tauto|].
      unfold issues_of; simpl fst; simpl snd. rewrite Hp. now left.
    + exfalso.
      apply parse_object_accepts in Hobj as [props' [[= <-] [Hnil _]]].
      destruct (no_issue_accepts userSchema props "avatar"
                  (optional (z_string [url "Avatar must be a valid URL"])) Hnil)
        as [v Hv]; [simpl; tauto|].
      rewrite Hp in Hv. discriminate.
  - intros Ha errors i Hobj Hi Hpath.
    apply parse_object_rejects in Hobj as [-> _].
    apply listed_is_refused in Hi as [key [s [Hin [Hp [Hk _]]]]].
    rewrite Hpath in Hk. injection Hk as <-.
    simpl in Hin.
    destruct Hin as [[=]|[[=]|[[= <-]|[[=]|[[=]|[]]]]]].
    rewrite Ha in Hp. discriminate.
  - intros r db' Hpost Hcode.
    destruct (parse_object userSchema (JObject props)) as [errors|vals] eqn:Hobj.
    + rewrite (post_user_rejected _ now db errors Hobj) in Hpost.
      injection Hpost as <- <-. discriminate.
    + destruct (post_user_validated _ now db vals Hobj) as [Hpost' Hsys].
      destruct (userSchema_validated _ vals Hobj)
        as [props' [n [e [[= <-] [_ [Gn [_ [Ge [Ga _]]]]]]]]].
      rewrite Hpost', (create_cases now vals db Hsys), Gn, Ge in Hpost.
      destruct (any_too_long vals); [injection Hpost as <- <-; discriminate|].
      destruct (email_in_use e db); injection Hpost as <- <-; [discriminate|].
      exists (inserted vals n e now db). split; [reflexivity|exact Ga].
Qed.

End WithService.

End Creating.

(* ================================================================== *)
(** ** Routes that take an id *)

Module ById.

Import Zod ZodFacts SchemaFacts Db Server RouteFacts.
Local Open Scope string_scope.
Local Open Scope Z_scope.

(** A number equal to an integer is finite, and equal to that one only. *)
Lemma equals_int_finite (x : spec_float) (n : Z) :
  JS.equals_int x n = true -> JS.isFinite x = true /\ JS.isNaN x = false.
Proof. destruct x; simpl; intros H; try discriminate; auto. Qed.

Lemma equals_int_unique (x : spec_float) (n m : Z) :
  JS.equals_int x n = true -> JS.equals_int x m = (m =? n).
Proof.
  destruct x as [s|s| |s p e]; simpl; try discriminate.
  - intros H. apply Z.eqb_eq in H. now subst n.
  - destruct (0 <=? e) eqn:He; intros H; apply Z.eqb_eq in H.
    + now subst n.
    + assert (Hpow : 0 < 2 ^ (- e)) by (apply Z.pow_pos_nonneg; lia).
      rewrite <- H.
      destruct (Z.eqb_spec m n) as [->|Hne].
      * apply Z.eqb_refl.
      * apply Z.eqb_neq. intros Heq. apply Hne.
        now apply Z.mul_cancel_r in Heq; [|lia].
Qed.

Section WithService.

Context {V : Validators} {E : Engine}.

Lemma id_is_named (param : string) (n : Z) (u : user) :
  names param n -> id_is (JS.Number param) u = (id u =? n).
Proof. intros H. unfold id_is. now apply equals_int_unique. Qed.

Lemma filter_named (param : string) (n : Z) (l : list user) :
  names param n ->
  filter (id_is (JS.Number param)) l = filter (fun u => id u =? n) l /\
  filter (fun u => negb (id_is (JS.Number param) u)) l
  = filter (fun u => negb (id u =? n)) l.
Proof.
  intros H. split; apply filter_ext; intros u; now rewrite (id_is_named param n u H).
Qed.

Lemma filter_absent (n : Z) (l : list user) :
  (forall u, In u l -> id u <> n) -> filter (fun u => id u =? n) l = [].
Proof.
  induction l as [|u rest IH]; simpl; intros H; [reflexivity|].
  destruct (Z.eqb_spec (id u) n) as [Heq|_].
  - exfalso. apply (H u); auto.
  - apply IH. intros v Hv. apply H. now right.
Qed.

Lemma filter_present (n : Z) (l : list user) :
  (exists u, In u l /\ id u = n) -> filter (fun u => id u =? n) l <> [].
Proof.
  intros [u [Hin Hid]] Hnil.
  assert (Hf : In u (filter (fun u => id u =? n) l)).
  { apply filter_In. split; [exact Hin|now apply Z.eqb_eq]. }
  rewrite Hnil in Hf. contradiction.
Qed.

Lemma filter_gone (n : Z) (l : list user) :
  filter (fun u => id u =? n) (filter (fun u => negb (id u =? n)) l) = [].
Proof.
  apply filter_absent. intros u Hin.
  apply filter_In in Hin as [_ Hneg].
  intros Heq. apply Z.eqb_eq in Heq. now rewrite Heq in Hneg.
Qed.

(** The lookup, for a parameter that reads as [n]. *)
Lemma select_named (param : string) (n : Z) (db : database) :
  names param n ->
  select_where_id (JS.Number param) db = (inr (filter (fun u => id u =? n) (rows db)), db).
Proof.
  intros H. unfold select_where_id.
  destruct (equals_int_finite _ _ H) as [-> _].
  now destruct (filter_named param n (rows db) H) as [-> _].
Qed.

Lemma get_user_absent (param : string) (n : Z) (db : database) :
  names param n -> filter (fun u => id u =? n) (rows db) = [] ->
  get_user param db = (inr not_found, db).
Proof.
  intros H Hnil. unfold get_user, try_catch, bind.
  destruct (equals_int_finite _ _ H) as [_ ->].
  now rewrite (select_named param n db H), Hnil.
Qed.

Lemma delete_user_absent (param : string) (n : Z) (db : database) :
  names param n -> filter (fun u => id u =? n) (rows db) = [] ->
  delete_user param db = (inr not_found, db).
Proof.
  intros H Hnil. unfold delete_user, try_catch, bind.
  destruct (equals_int_finite _ _ H) as [_ ->].
  now rewrite (select_named param n db H), Hnil.
Qed.

Lemma delete_user_present (param : string) (n : Z) (db : database) :
  names param n -> filter (fun u => id u =? n) (rows db) <> [] ->
  delete_user param db =
  (inr {| statusCode := 204; body := no_content |},
   {| rows := filter (fun u => negb (id u =? n)) (rows db);
      auto_increment := auto_increment db |}).
Proof.
  intros H Hsome. unfold delete_user, try_catch, bind.
  destruct (equals_int_finite _ _ H) as [Hfin HnotNaN]. rewrite HnotNaN.
  rewrite (select_named param n db H).
  destruct (filter (fun u => id u =? n) (rows db)) as [|u found]; [congruence|].
  unfold delete, ret. rewrite Hfin.
  now destruct (filter_named param n (rows db) H) as [_ ->].
Qed.

(** C7: for a path parameter that reads as the id [n].  When no row has
    that id, DELETE answers 404 and leaves the table as it was.  When a
    row has it, DELETE answers 204 with no content and the table loses
    exactly the rows with that id; a second DELETE and a GET of the same
    id then both answer 404. *)
Theorem delete_removes_the_row_once (param : string) (n : Z) (db : database) :
  names param n ->
  ((forall u, In u (rows db) -> id u <> n) ->
   delete_user param db =
     (inr {| statusCode := 404; body := json_message usuario_nao_encontrado |}, db)) /\
  ((exists u, In u (rows db) /\ id u = n) ->
   exists db',
     delete_user param db = (inr {| statusCode := 204; body := no_content |}, db') /\
     rows db' = filter (fun u => negb (id u =? n)) (rows db) /\
     delete_user param db' =
       (inr {| statusCode := 404; body := json_message usuario_nao_encontrado |}, db') /\
     get_user param db' =
       (inr {| statusCode := 404; body := json_message usuario_nao_encontrado |}, db')).
Proof.
  intros H. split.
  - intros Habsent. apply (delete_user_absent param n db H).
    now apply filter_absent.
  - intros Hpresent.
    eexists. split; [|split; [|split]].
    + apply (delete_user_present param n db H). now apply filter_present.
    + reflexivity.
    + apply (delete_user_absent param n _ H). apply filter_gone.
    + apply (get_user_absent param n _ H). apply filter_gone.
Qed.

(** C8, as the code has it: for every path parameter that [Number]
    turns into NaN, GET and DELETE answer 400 with the invalid-id
    message, and so does PUT when its body is valid; PUT with a body the
    update schema refuses answers the 400 of the validation.  None of
    them touches the table.  A numeric parameter that is no integer goes
    on to the lookup. *)
Theorem not_a_number_id_is_refused (param : string) (db : database) :
  JS.isNaN (JS.Number param) = true ->
  get_user param db =
    (inr {| statusCode := 400; body := json_message formato_de_id_invalido |}, db) /\
  delete_user param db =
    (inr {| statusCode := 400; body := json_message formato_de_id_invalido |}, db) /\
  (forall body now vals,
     parse_object userUpdateSchema body = inr vals ->
     put_user param body now db =
       (inr {| statusCode := 400; body := json_message formato_de_id_invalido |}, db)) /\
  (forall body now errors,
     parse_object userUpdateSchema body = inl errors ->
     put_user param body now db = (inr (validation_error errors), db) /\
     statusCode (validation_error errors) = 400).
Proof.
  intros Hnan. split; [|split; [|split]].
  - unfold get_user, try_catch. now rewrite Hnan.
  - unfold delete_user, try_catch. now rewrite Hnan.
  - intros body now vals Hp.
    unfold put_user, validateRequest. rewrite Hp.
    unfold modify, try_catch. now rewrite Hnan.
  - intros body now errors Hp. split; [now apply put_user_rejected|reflexivity].
Qed.

End WithService.

End ById.

(* ================================================================== *)
(** ** Updating users *)

Module Updating.

Import Zod ZodFacts SchemaFacts Db Server RouteFacts.
Local Open Scope string_scope.
Local Open Scope Z_scope.

Section WithService.

Context {V : Validators} {E : Engine}.

Lemma id_is_assign (x : spec_float) (vals : object) (now : Z) (u : user) :
  id_is x (assign vals now u) = id_is x u.
Proof. reflexivity. Qed.

Lemma filter_updated (x : spec_float) (vals : object) (now : Z) (l : list user) :
  filter (id_is x) (map (fun u => if id_is x u then assign vals now u else u) l)
  = map (assign vals now) (filter (id_is x) l).
Proof.
  induction l as [|u rest IH]; simpl; [reflexivity|].
  destruct (id_is x u) eqn:Hu.
  - rewrite id_is_assign, Hu. simpl. now rewrite IH.
  - now rewrite Hu.
Qed.

Lemma Forall2_along_map {A : Type} (R : A -> A -> Prop) (f : A -> A) (l : list A) :
  (forall a, R a (f a)) -> Forall2 R l (map f l).
Proof. intros H. induction l; simpl; constructor; auto. Qed.

Lemma filter_found (x : spec_float) (l : list user) (u : user) (found : list user) :
  filter (id_is x) l = u :: found ->
  existsb (id_is x) l = true /\ In u l /\ id_is x u = true.
Proof.
  intros Hf.
  assert (Hin : In u (filter (id_is x) l)) by (rewrite Hf; now left).
  apply filter_In in Hin as [Hin Hu].
  repeat split; try assumption.
  apply existsb_exists. eauto.
Qed.

(** How the update handler ends, on values without a system column:
    with the table as it was and another status than 200, or with the
    rows of that id assigned and the first of them in the answer. *)
Lemma modify_cases (param : string) (now : Z) (vals : object) (db : database)
      (r : response) (db' : database) :
  mentions vals ["id"; "createdAt"] = false ->
  modify param now vals db = (inr r, db') ->
  (db' = db /\ statusCode r <> 200) \/
  (exists u found,
     filter (id_is (JS.Number param)) (rows db) = u :: found /\
     db' = updated (JS.Number param) vals now db /\
     r = {| statusCode := 200; body := json_user (assign vals now u) |}).
Proof.
  intros Hsys. unfold modify, try_catch, bind.
  destruct (JS.isNaN (JS.Number param)).
  { intros [= <- <-]. left. split; [reflexivity|discriminate]. }
  unfold select_where_id at 1.
  destruct (JS.isFinite (JS.Number param)) eqn:Hfin.
  2:{ destruct nonfinite_id as [e|].
      - unfold on_write_error. destruct (error_code_eqb e ER_DUP_ENTRY);
          intros [= <- <-]; left; (split; [reflexivity|discriminate]).
      - intros [= <- <-]. left. split; [reflexivity|discriminate]. }
  destruct (filter (id_is (JS.Number param)) (rows db)) as [|u found] eqn:Hf.
  { intros [= <- <-]. left. split; [reflexivity|discriminate]. }
  destruct (filter_found _ _ _ _ Hf) as [Hex _].
  unfold update. rewrite Hsys, Hfin, Hex. simpl negb. cbv iota.
  destruct (any_too_long vals).
  { intros [= <- <-]. left. split; [reflexivity|discriminate]. }
  destruct (email_taken (JS.Number param) vals db).
  { intros [= <- <-]. left. split; [reflexivity|discriminate]. }
  unfold select_where_id. rewrite Hfin.
  unfold updated at 1 2. simpl rows. rewrite filter_updated, Hf. simpl.
  intros [= <- <-]. right. exists u, found. auto.
Qed.

Lemma put_user_validated (param : string) (body : json) (now : Z) (db : database)
      (vals : object) :
  parse_object userUpdateSchema body = inr vals ->
  put_user param body now db = modify param now vals db /\
  mentions vals ["id"; "createdAt"] = false.
Proof.
  intros Hp. split.
  - unfold put_user, validateRequest. now rewrite Hp.
  - apply (validated_without_system_columns userUpdateSchema body vals _
             (keys_partial userSchema) Hp).
    intros c Hc. apply system_columns_outside. simpl in *. tauto.
Qed.

(** A column of an assigned row, against the request. *)
Lemma assigned_column (props : list (string * json)) (vals : object) (key : string)
      (before : string) :
  get vals key = as_string (get props key) ->
  (get props key = None \/ exists s, get props key = Some (JString s)) ->
  set_or_kept (get props key) before (or_default (get vals key) before).
Proof.
  intros Hv [Hnone|[s Hs]]; rewrite Hv; unfold set_or_kept.
  - now rewrite Hnone.
  - now rewrite Hs.
Qed.

(** C6, as the code has it: after a PUT answered 200, the rows of
    another id are as they were; in the row of that id every column whose
    property the request supplied holds the supplied string, every other
    column among name, email, avatar, role and status holds what it held,
    id and createdAt are unchanged, and updatedAt is the time of the
    update.  It is then greater than before exactly when that time is
    later than the value the row held. *)
Theorem put_changes_only_supplied_fields
        (param : string) (body : json) (now : Z) (db : database)
        (r : response) (db' : database) :
  put_user param body now db = (inr r, db') ->
  statusCode r = 200 ->
  exists props,
    body = JObject props /\
    auto_increment db' = auto_increment db /\
    Forall2 (fun u u' =>
               if id_is (JS.Number param) u then
                 id u' = id u /\ createdAt u' = createdAt u /\
                 updatedAt u' = now /\
                 (updatedAt u < updatedAt u' <-> updatedAt u < now) /\
                 set_or_kept (get props "name") (name u) (name u') /\
                 set_or_kept (get props "email") (email u) (email u') /\
                 avatar_set_or_kept (get props "avatar") (avatar u) (avatar u') /\
                 set_or_kept (get props "role") (role u) (role u') /\
                 set_or_kept (get props "status") (status u) (status u')
               else u' = u)
            (rows db) (rows db') /\
    exists u', Server.body r = json_user u' /\ In u' (rows db') /\
               id_is (JS.Number param) u' = true.
Proof.
  intros Hput Hcode.
  destruct (parse_object userUpdateSchema body) as [errors|vals] eqn:Hp.
  { rewrite (put_user_rejected param body now db errors Hp) in Hput.
    injection Hput as <- <-. discriminate. }
  destruct (put_user_validated param body now db vals Hp) as [Hput' Hsys].
  rewrite Hput' in Hput.
  destruct (modify_cases param now vals db r db' Hsys Hput)
    as [[_ Hnot]|[u [found [Hf [-> ->]]]]]; [contradiction|].
  destruct (userUpdateSchema_validated body vals Hp) as [props [-> Hcols]].
  assert (Hcol : forall key, In key (keys userSchema) ->
                 forall before, set_or_kept (get props key) before
                                            (or_default (get vals key) before)).
  { intros key Hkey before. destruct (Hcols key Hkey). now apply assigned_column. }
  exists props. split; [reflexivity|]. split; [reflexivity|]. split.
  - unfold updated; simpl rows. apply Forall2_along_map. intros w.
    destruct (id_is (JS.Number param) w); [|reflexivity].
    unfold assign; simpl.
    repeat split; try tauto;
      try (apply Hcol; rewrite userSchema_keys; simpl; tauto).
    destruct (Hcols "avatar") as [Hv Hshape];
      [rewrite userSchema_keys; simpl; tauto|].
    unfold avatar_set_or_kept. rewrite Hv.
    destruct Hshape as [->|[a ->]]; simpl; eauto.
  - destruct (filter_found _ _ _ _ Hf) as [_ [Hin Hu]].
    exists (assign vals now u). split; [reflexivity|]. split.
    + unfold updated; simpl rows. apply in_map_iff. exists u.
      now rewrite Hu.
    + now rewrite id_is_assign.
Qed.

(** C10: validation strips what is not name, email, avatar, role or
    status, from the body of a POST and of a PUT alike, before the
    handler runs.  So whatever the body holds, and however the engine
    would treat a caller-supplied id or timestamp, a POST leaves the rows
    as they were or adds one row whose id is the next value of the
    counter and whose two timestamps are the time of the insert; a PUT
    keeps the id and createdAt of every row. *)
Theorem request_body_cannot_set_system_columns (body : json) :
  (forall vals key,
     parse_object userSchema body = inr vals \/
     parse_object userUpdateSchema body = inr vals ->
     In key (keys vals) ->
     In key ["name"; "email"; "avatar"; "role"; "status"]) /\
  (forall now db r db',
     post_user body now db = (inr r, db') ->
     rows db' = rows db \/
     exists u, rows db' = (rows db ++ [u])%list /\ id u = auto_increment db /\
               createdAt u = now /\ updatedAt u = now) /\
  (forall param now db r db',
     put_user param body now db = (inr r, db') ->
     map id (rows db') = map id (rows db) /\
     map createdAt (rows db') = map createdAt (rows db)).
Proof.
  split; [|split].
  - intros vals key [Hp|Hp] Hin.
    + apply (parse_object_strips _ _ _ _ Hp Hin).
    + apply (parse_object_strips _ _ _ _ Hp) in Hin.
      unfold userUpdateSchema in Hin. now rewrite keys_partial in Hin.
  - intros now db r db' Hpost.
    destruct (parse_object userSchema body) as [errors|vals] eqn:Hp.
    { rewrite (post_user_rejected body now db errors Hp) in Hpost.
      injection Hpost as <- <-. now left. }
    destruct (post_user_validated body now db vals Hp) as [Hpost' Hsys].
    rewrite Hpost', (create_cases now vals db Hsys) in Hpost.
    destruct (get vals "name") as [n|]; [|injection Hpost as <- <-; now left].
    destruct (get vals "email") as [e|]; [|injection Hpost as <- <-; now left].
    destruct (any_too_long vals); [injection Hpost as <- <-; now left|].
    destruct (email_in_use e db); injection Hpost as <- <-; [now left|].
    right. exists (inserted vals n e now db). simpl. auto.
  - intros param now db r db' Hput.
    destruct (parse_object userUpdateSchema body) as [errors|vals] eqn:Hp.
    { rewrite (put_user_rejected param body now db errors Hp) in Hput.
      injection Hput as <- <-. auto. }
    destruct (put_user_validated param body now db vals Hp) as [Hput' Hsys].
    rewrite Hput' in Hput.
    destruct (modify_cases param now vals db r db' Hsys Hput)
      as [[-> _]|[u [found [_ [-> _]]]]]; [auto|].
    unfold updated; simpl rows. rewrite !map_map.
    split; apply map_ext; intros w; now destruct (id_is (JS.Number param) w).
Qed.

End WithService.

End Updating.

(* ================================================================== *)
(** ** Ids over the life of the table *)

Module Lifetime.

Import Zod ZodFacts SchemaFacts Db Server RouteFacts.
Local Open Scope string_scope.
Local Open Scope Z_scope.

Section WithService.

Context {V : Validators} {E : Engine}.

Lemma delete_user_effect (param : string) (db : database) :
  effect db (snd (delete_user param db)).
Proof.
  unfold delete_user, try_catch, bind.
  destruct (JS.isNaN (JS.Number param)); [constructor|].
  unfold select_where_id.
  destruct (JS.isFinite (JS.Number param)) eqn:Hfin.
  - destruct (filter (id_is (JS.Number param)) (rows db)); [constructor|].
    unfold delete. rewrite Hfin. simpl. constructor.
  - destruct nonfinite_id; constructor.
Qed.

Lemma post_user_effect (body : json) (now : Z) (db : database) :
  effect db (snd (post_user body now db)).
Proof.
  destruct (parse_object userSchema body) as [errors|vals] eqn:Hp.
  - rewrite (post_user_rejected body now db errors Hp). constructor.
  - destruct (post_user_validated body now db vals Hp) as [-> Hsys].
    rewrite (create_cases now vals db Hsys).
    destruct (get vals "name") as [n|]; [|constructor].
    destruct (get vals "email") as [e|]; [|constructor].
    destruct (any_too_long vals); [constructor|].
    destruct (email_in_use e db); simpl; now constructor.
Qed.

Lemma put_user_effect (param : string) (body : json) (now : Z) (db : database) :
  effect db (snd (put_user param body now db)).
Proof.
  destruct (parse_object userUpdateSchema body) as [errors|vals] eqn:Hp.
  - rewrite (put_user_rejected param body now db errors Hp). constructor.
  - destruct (Updating.put_user_validated param body now db vals Hp) as [-> Hsys].
    destruct (modify param now vals db) as [[e|r] db'] eqn:Hm.
    + unfold modify, try_catch in Hm.
      match type of Hm with
      | context [let (_, _) := ?c in _] => destruct c as [[e'|r'] db'']
      end; [|discriminate].
      unfold on_write_error in Hm.
      destruct (error_code_eqb e' ER_DUP_ENTRY); discriminate.
    + destruct (Updating.modify_cases param now vals db r db' Hsys Hm)
        as [[-> _]|[u [found [_ [-> _]]]]]; constructor.
Qed.

(** Every request has one of these effects. *)
Lemma serve_effect (req : request) (now : Z) (db : database) :
  effect db (snd (serve req now db)).
Proof.
  destruct req as [|param|body|param body|param]; simpl.
  - constructor.
  - unfold get_user, try_catch, bind.
    destruct (JS.isNaN (JS.Number param)); [constructor|].
    unfold select_where_id.
    destruct (JS.isFinite (JS.Number param)).
    + destruct (filter _ (rows db)); constructor.
    + destruct nonfinite_id; constructor.
  - apply post_user_effect.
  - apply put_user_effect.
  - apply delete_user_effect.
Qed.

(** A [try] whose [catch] answers always answers. *)
Lemma try_catch_responds (m : M response) (handler : error_code -> M response)
      (db : database) :
  (forall e db0, exists r, handler e db0 = (inr r, db0)) ->
  exists r db', try_catch m handler db = (inr r, db').
Proof.
  intros H. unfold try_catch.
  destruct (m db) as [[e|r] db']; [|eauto].
  destruct (H e db') as [r Hr]. rewrite Hr. eauto.
Qed.

Lemma on_write_error_responds (e : error_code) (db : database) :
  exists r, on_write_error e db = (inr r, db).
Proof.
  unfold on_write_error, ret.
  destruct (error_code_eqb e ER_DUP_ENTRY); eexists; reflexivity.
Qed.

(** Every request is answered: no error escapes a handler. *)
Lemma serve_responds (req : request) (now : Z) (db : database) :
  exists r db', serve req now db = (inr r, db').
Proof.
  destruct req as [|param|body|param body|param]; simpl.
  - apply try_catch_responds. intros; eexists; reflexivity.
  - apply try_catch_responds. intros; eexists; reflexivity.
  - unfold post_user, validateRequest.
    destruct (parse_object userSchema body); [do 2 eexists; reflexivity|].
    apply try_catch_responds, on_write_error_responds.
  - unfold put_user, validateRequest.
    destruct (parse_object userUpdateSchema body); [do 2 eexists; reflexivity|].
    apply try_catch_responds, on_write_error_responds.
  - apply try_catch_responds. intros; eexists; reflexivity.
Qed.

(** An effect keeps the ids below the counter, never lowers the counter,
    and brings back no id below it. *)
Lemma effect_keeps_ids (db db' : database) (n : Z) :
  effect db db' ->
  below_counter db -> n < auto_increment db -> absent n db ->
  below_counter db' /\ n < auto_increment db' /\ absent n db'.
Proof.
  unfold below_counter, absent.
  intros Heff Hbelow Hn Habs. destruct Heff as [| |u Hu|x vals now|x]; simpl.
  - auto.
  - repeat split; [|lia|exact Habs].
    eapply Forall_impl; [|exact Hbelow]. simpl; intros; lia.
  - repeat split; [|lia|].
    + apply Forall_app. split.
      * eapply Forall_impl; [|exact Hbelow]. simpl; intros; lia.
      * constructor; [lia|constructor].
    + intros w Hw. apply in_app_iff in Hw as [Hw|[<-|[]]]; [auto|lia].
  - repeat split; [|exact Hn|].
    + apply Forall_map. eapply Forall_impl; [|exact Hbelow].
      simpl. intros w Hw. now destruct (id_is x w).
    + intros w Hw. apply in_map_iff in Hw as [w0 [<- Hw0]].
      specialize (Habs w0 Hw0). now destruct (id_is x w0).
  - repeat split; [|exact Hn|].
    + apply Forall_forall. intros w Hw. apply filter_In in Hw as [Hw _].
      rewrite Forall_forall in Hbelow. auto.
    + intros w Hw. apply filter_In in Hw as [Hw _]. auto.
Qed.

Lemma run_keeps_ids (reqs : list (request * Z)) (db : database) (n : Z) :
  below_counter db -> n < auto_increment db -> absent n db ->
  below_counter (run reqs db) /\ n < auto_increment (run reqs db) /\
  absent n (run reqs db).
Proof.
  revert db. induction reqs as [|[req now] rest IH]; intros db Hb Hn Ha; simpl.
  - auto.
  - destruct (effect_keeps_ids db _ n (serve_effect req now db) Hb Hn Ha)
      as [Hb' [Hn' Ha']].
    now apply IH.
Qed.

(** X1: a deleted id is never handed out again: in a table whose ids all
    came from the counter, once DELETE has removed the row of [n], no
    sequence of requests brings a row with that id back, and GET of it
    answers 404 from then on. *)
Theorem deleted_id_never_returns
        (param : string) (n : Z) (db : database) (reqs : list (request * Z)) :
  names param n -> below_counter db ->
  (exists u, In u (rows db) /\ id u = n) ->
  let after := run reqs (snd (delete_user param db)) in
  absent n after /\
  get_user param after =
    (inr {| statusCode := 404; body := json_message usuario_nao_encontrado |}, after).
Proof.
  intros Hname Hbelow [u [Hin Hid]] after.
  assert (Hn : n < auto_increment db).
  { unfold below_counter in Hbelow. rewrite Forall_forall in Hbelow.
    rewrite <- Hid. auto. }
  assert (Hdel : snd (delete_user param db)
                 = {| rows := filter (fun w => negb (id w =? n)) (rows db);
                      auto_increment := auto_increment db |}).
  { rewrite (ById.delete_user_present param n db Hname); [reflexivity|].
    apply ById.filter_present. eauto. }
  assert (Habs : absent n after).
  { unfold after. rewrite Hdel.
    apply run_keeps_ids; simpl.
    - unfold below_counter; simpl. apply Forall_forall. intros w Hw.
      apply filter_In in Hw as [Hw _].
      unfold below_counter in Hbelow. rewrite Forall_forall in Hbelow. auto.
    - exact Hn.
    - intros w Hw. apply filter_In in Hw as [_ Hw].
      intros Heq. apply Z.eqb_eq in Heq. now rewrite Heq in Hw. }
  split; [exact Habs|].
  apply (ById.get_user_absent param n after Hname).
  now apply ById.filter_absent.
Qed.

End WithService.

End Lifetime.

(* ================================================================== *)
(** ** Rejected payloads *)

Module Rejecting.

Import Zod ZodFacts SchemaFacts Db Server RouteFacts.
Local Open Scope string_scope.
Local Open Scope Z_scope.

Section WithService.

Context {V : Validators} {E : Engine}.

(** A property the shape refuses makes the object rejected, with that
    property among the issues. *)
Lemma offending_property_is_listed (sh : shape) (props : list (string * json))
      (key : string) :
  offends sh props key ->
  exists errors m,
    parse_object sh (JObject props) = inl errors /\ In (key, m) (listed errors).
Proof.
  intros [s [Hin Hp]].
  destruct (parse_object sh (JObject props)) as [errors|vals] eqn:Hobj.
  - apply parse_object_rejects in Hobj as [-> _].
    destruct (refused_is_listed sh props key s Hin Hp) as [m Hm].
    exists (flat_map (issues_of props) sh), m. split; [reflexivity|].
    unfold listed. apply in_map_iff.
    exists {| path := [key]; msg := m |}. split; [reflexivity|exact Hm].
  - exfalso.
    apply parse_object_accepts in Hobj as [props' [[= <-] [Hnil _]]].
    destruct (no_issue_accepts sh props key s Hnil Hin) as [v Hv].
    rewrite Hv in Hp. discriminate.
Qed.

Lemma rejection_has_issue (sh : shape) (body : json) (errors : list issue) :
  parse_object sh body = inl errors -> errors <> [].
Proof.
  destruct body; try (intros [= <-]; discriminate).
  intros H. now apply parse_object_rejects in H.
Qed.

(** A value that breaks the constraint of its field is refused by the
    create schema and by the update schema. *)
Lemma violation_offends (props : list (string * json)) (key : string) (value : json) :
  get props key = Some value -> violates_constraint key value = true ->
  offends userSchema props key /\ offends userUpdateSchema props key.
Proof.
  intros Hget Hv.
  assert (Hkey : (key = "name" \/ key = "email" \/ key = "avatar" \/
                  key = "role" \/ key = "status")).
  { revert Hv. unfold violates_constraint. simpl existsb.
    destruct (String.eqb_spec key "name"); [tauto|].
    destruct (String.eqb_spec key "email"); [tauto|].
    destruct (String.eqb_spec key "avatar"); [tauto|].
    destruct (String.eqb_spec key "role"); [tauto|].
    destruct (String.eqb_spec key "status"); [tauto|].
    destruct value; discriminate. }
  destruct Hkey as [->|[->|[->|[->| ->]]]];
    (split; eexists; (split; [simpl; tauto|]); simpl snd; rewrite Hget;
     destruct value as [| | |s| |]; simpl in Hv |- *; try reflexivity).
  - now rewrite Hv.
  - now rewrite Hv.
  - apply negb_true_iff in Hv. now rewrite Hv.
  - apply negb_true_iff in Hv. now rewrite Hv.
  - apply negb_true_iff in Hv. now rewrite Hv.
  - apply negb_true_iff in Hv. now rewrite Hv.
  - apply negb_true_iff in Hv. rewrite orb_false_r. now rewrite Hv.
  - apply negb_true_iff in Hv. rewrite orb_false_r. now rewrite Hv.
  - apply negb_true_iff in Hv. rewrite orb_false_r. now rewrite Hv.
  - apply negb_true_iff in Hv. rewrite orb_false_r. now rewrite Hv.
Qed.

(** C4: a body that holds, under one of the five fields, a value that
    breaks the constraint of the field (a name of fewer than two
    characters, an e-mail or an avatar that fails its check, a role or a
    status outside its two values, a value that is no text) is answered
    400 by POST and by PUT, with the message "Validation error" and a
    list of issues that holds one under the name of that field; so is, by
    POST, a body without a name or without an e-mail, with the issue
    [Required]; so is, by both, a body that is no object.  More generally
    every body the schema of the route refuses is answered that way, with
    the list of its issues, which is not empty.  In each case the handler
    does not run and the table is what it was. *)
Theorem invalid_payload_is_rejected_before_storage
        (body : json) (param : string) (now : Z) (db : database) :
  (forall errors,
     parse_object userSchema body = inl errors ->
     errors <> [] /\
     post_user body now db =
       (inr {| statusCode := 400;
               body := json_validation "Validation error" (listed errors) |}, db)) /\
  (forall errors,
     parse_object userUpdateSchema body = inl errors ->
     errors <> [] /\
     put_user param body now db =
       (inr {| statusCode := 400;
               body := json_validation "Validation error" (listed errors) |}, db)) /\
  (forall props key value,
     body = JObject props ->
     get props key = Some value -> violates_constraint key value = true ->
     (exists errors m,
        post_user body now db =
          (inr {| statusCode := 400;
                  body := json_validation "Validation error" (listed errors) |}, db) /\
        In (key, m) (listed errors)) /\
     (exists errors m,
        put_user param body now db =
          (inr {| statusCode := 400;
                  body := json_validation "Validation error" (listed errors) |}, db) /\
        In (key, m) (listed errors))) /\
  (forall props key,
     body = JObject props ->
     key = "name" \/ key = "email" -> get props key = None ->
     exists errors,
       post_user body now db =
         (inr {| statusCode := 400;
                 body := json_validation "Validation error" (listed errors) |}, db) /\
       In (key, Required) (listed errors)) /\
  ((forall props, body <> JObject props) ->
   exists errors,
     errors <> [] /\
     post_user body now db =
       (inr {| statusCode := 400;
               body := json_validation "Validation error" (listed errors) |}, db) /\
     put_user param body now db =
       (inr {| statusCode := 400;
               body := json_validation "Validation error" (listed errors) |}, db)).
Proof.
  split; [|split; [|split; [|split]]].
  - intros errors Hp. split; [now apply rejection_has_issue in Hp|].
    now apply post_user_rejected.
  - intros errors Hp. split; [now apply rejection_has_issue in Hp|].
    now apply put_user_rejected.
  - intros props key value -> Hget Hv.
    destruct (violation_offends props key value Hget Hv) as [Hc Hu]. split.
    + destruct (offending_property_is_listed _ _ _ Hc) as [errors [m [Hp Hin]]].
      exists errors, m. split; [now apply post_user_rejected|exact Hin].
    + destruct (offending_property_is_listed _ _ _ Hu) as [errors [m [Hp Hin]]].
      exists errors, m. split; [now apply put_user_rejected|exact Hin].
  - intros props key -> Hkey Hnone.
    destruct (parse_object userSchema (JObject props)) as [errors|vals] eqn:Hp.
    + exists errors. split; [now apply post_user_rejected|].
      apply parse_object_rejects in Hp as [-> _].
      unfold listed. apply in_map_iff.
      exists {| path := [key]; msg := Required |}. split; [reflexivity|].
      destruct Hkey as [-> | ->]; simpl; unfold issues_of; simpl;
        rewrite Hnone; simpl; rewrite ?in_app_iff; simpl; tauto.
    + exfalso.
      destruct (userSchema_validated _ vals Hp)
        as [props' [n [e [[= <-] [Pn [_ [Pe _]]]]]]].
      destruct Hkey as [-> | ->]; congruence.
  - intros Hnot.
    exists [ {| path := []; msg := InvalidType "object" (getParsedType (Some body)) |} ].
    split; [discriminate|].
    split; [apply post_user_rejected|apply put_user_rejected];
      (destruct body; try reflexivity; exfalso; now apply (Hnot props)).
Qed.

End WithService.

End Rejecting.

(* ================================================================== *)
(** ** The form and the API *)

Module FormAndApi.

Import Zod ZodFacts SchemaFacts.
Local Open Scope string_scope.

Section WithValidators.

Context {V : Validators}.

Lemma same_verdict_field (props : list (string * json)) (f1 f2 : string * schema) :
  same_verdict props f1 f2 ->
  output_of props f1 = output_of props f2 /\
  (issues_of props f1 = [] <-> issues_of props f2 = []).
Proof.
  intros [Hk Hv]. unfold output_of, issues_of. rewrite <- Hk in *.
  pose proof (parse_rejects_with_issue (snd f1) (get props (fst f1))) as N1.
  pose proof (parse_rejects_with_issue (snd f2) (get props (fst f1))) as N2.
  destruct (parse (snd f1) (get props (fst f1))) as [v1|m1|m1];
    destruct (parse (snd f2) (get props (fst f1))) as [v2|m2|m2];
    simpl in *; try discriminate;
    try (injection Hv as ->; split; [reflexivity|tauto]);
    (split; [reflexivity|]);
    specialize (N1 eq_refl); specialize (N2 eq_refl);
    destruct m1, m2; simpl; split; intros; congruence.
Qed.

Lemma same_verdict_shape (props : list (string * json)) (sh1 sh2 : shape) :
  Forall2 (same_verdict props) sh1 sh2 ->
  accepted (parse_object sh1 (JObject props)) = accepted (parse_object sh2 (JObject props)).
Proof.
  intros Hall.
  assert (H : flat_map (output_of props) sh1 = flat_map (output_of props) sh2 /\
              (flat_map (issues_of props) sh1 = [] <-> flat_map (issues_of props) sh2 = [])).
  { induction Hall as [|f1 f2 r1 r2 Hf _ [IHo IHi]]; simpl; [tauto|].
    destruct (same_verdict_field props f1 f2 Hf) as [Ho Hi].
    split; [now rewrite Ho, IHo|].
    split; intros Happ; apply app_eq_nil in Happ as [Ha Hb].
    - now rewrite (proj1 Hi Ha), (proj1 IHi Hb).
    - now rewrite (proj2 Hi Ha), (proj2 IHi Hb). }
  destruct H as [Ho Hi]. simpl. rewrite !parse_shape_spec, Ho.
  destruct (flat_map (issues_of props) sh1) eqn:E1;
    destruct (flat_map (issues_of props) sh2) eqn:E2; simpl; try reflexivity.
  - destruct Hi as [Hi _]. specialize (Hi eq_refl). discriminate.
  - destruct Hi as [_ Hi]. specialize (Hi eq_refl). discriminate.
Qed.


(** Name, e-mail, role and status: the two schemas differ in their
    messages only.  Avatar: they differ on the empty string only. *)
Lemma schemas_same_verdict (props : list (string * json)) :
  get props "avatar" <> Some (JString "") ->
  Forall2 (same_verdict props) Client.userSchema Server.userSchema.
Proof.
  intros Ha. unfold Client.userSchema, Server.userSchema.
  repeat (apply Forall2_cons; [split; [reflexivity|simpl]|]); [| | | | |constructor].
  - destruct (get props "name") as [[| | |s| |]|]; try reflexivity.
    now destruct (String.length s <? 2)%nat.
  - destruct (get props "email") as [[| | |s| |]|]; try reflexivity.
    now destruct (isEmail s).
  - destruct (get props "avatar") as [[| | |s| |]|]; try reflexivity.
    destruct (isUrl s); [reflexivity|]. simpl.
    destruct (String.eqb_spec s ""); [congruence|reflexivity].
  - destruct (get props "role") as [[| | |s| |]|]; try reflexivity.
    now destruct (String.eqb s "admin" || (String.eqb s "user" || false)).
  - destruct (get props "status") as [[| | |s| |]|]; try reflexivity.
    now destruct (String.eqb s "active" || (String.eqb s "inactive" || false)).
Qed.

Lemma get_to_json (vals : object) (key : string) :
  get (to_json vals) key = option_map JString (get vals key).
Proof.
  induction vals as [|[k v] rest IH]; simpl; [reflexivity|].
  destruct (String.eqb k key); [reflexivity|exact IH].
Qed.

(** What a schema kept, it keeps again. *)
Lemma parse_again (s : schema) (data : option json) (v : option string) :
  parse s data = OK v -> parse s (option_map JString v) = OK v.
Proof.
  destruct data as [j|].
  { intros H. destruct (parse_keeps_string s j v H) as [str [-> ->]]. exact H. }
  revert v.
  induction s as [checks|values errorMap|value|inner IH|inner IH value|s1 IH1 s2 IH2];
    intros v; simpl; try discriminate.
  - now intros [= <-].
  - intros H. destruct (parse_keeps_string inner _ v H) as [str [[= <-] ->]].
    exact H.
  - destruct (parse s1 None) as [v1|m1|m1] eqn:H1.
    + intros [= <-]. now rewrite (IH1 v1 eq_refl).
    + destruct (parse s2 None) as [v2|m2|m2] eqn:H2; try discriminate.
      intros [= <-]. rewrite (IH2 v2 eq_refl).
      destruct v2 as [str|]; simpl.
      * destruct (parse s1 (Some (JString str))) as [w| |] eqn:Hw; try reflexivity.
        now destruct (parse_keeps_string s1 _ w Hw) as [? [[= <-] ->]].
      * now rewrite H1.
    + destruct (parse s2 None) as [v2|m2|m2] eqn:H2; try discriminate.
      intros [= <-]. rewrite (IH2 v2 eq_refl).
      destruct v2 as [str|]; simpl.
      * destruct (parse s1 (Some (JString str))) as [w| |] eqn:Hw; try reflexivity.
        now destruct (parse_keeps_string s1 _ w Hw) as [? [[= <-] ->]].
      * now rewrite H1.
Qed.

Lemma flat_map_same {A B : Type} (f g : A -> list B) (l : list A) :
  (forall a, In a l -> f a = g a) -> flat_map f l = flat_map g l.
Proof.
  induction l as [|a rest IH]; simpl; intros H; [reflexivity|].
  rewrite (H a) by now left. rewrite IH; [reflexivity|].
  intros b Hb. apply H. now right.
Qed.

(** X2: validation normalizes once: an object that a schema accepted is
    accepted again, unchanged. *)
Theorem validated_object_is_accepted_again (sh : shape) (body : json) (vals : object) :
  NoDup (keys sh) ->
  parse_object sh body = inr vals ->
  parse_object sh (JObject (to_json vals)) = inr vals.
Proof.
  intros Hnd Hp.
  destruct (validated sh body vals Hnd Hp) as [props [-> [Hin _]]].
  apply parse_object_accepts in Hp as [props' [[= <-] [Hnil Hvals]]].
  assert (Hfield : forall f, In f sh ->
            issues_of (to_json vals) f = [] /\
            output_of (to_json vals) f = output_of props f).
  { intros [k s] Hf.
    assert (Hs : get sh k = Some s).
    { clear - Hnd Hf. induction sh as [|[k0 s0] rest IH]; [contradiction|].
      inversion Hnd as [|? ? Hnot Hnd']; subst. simpl.
      destruct Hf as [[= -> ->]|Hf]; [now rewrite String.eqb_refl|].
      destruct (String.eqb_spec k0 k) as [->|_]; [|auto].
      exfalso. apply Hnot. change k with (fst (k, s)). now apply in_map. }
    destruct (Hin k s Hs) as [v [Pv Gv]].
    unfold issues_of, output_of; simpl fst; simpl snd.
    rewrite get_to_json, Gv, (parse_again s _ v Pv), Pv. auto. }
  simpl. rewrite parse_shape_spec.
  rewrite (flat_map_same (issues_of (to_json vals)) (fun _ => []) sh)
    by (intros f Hf; apply Hfield, Hf).
  rewrite (flat_map_same (output_of (to_json vals)) (output_of props) sh)
    by (intros f Hf; apply Hfield, Hf).
  replace (flat_map (fun _ => []) sh) with (@nil issue)
    by (clear; induction sh; simpl; auto).
  now rewrite Hvals.
Qed.


End WithValidators.

End FormAndApi.

(* ================================================================== *)
(** ** Submitting the form *)

Module Submitting.

Import Zod ZodFacts SchemaFacts Client.
Local Open Scope string_scope.

Section WithValidators.

Context {V : Validators}.

Lemma form_schema_NoDup (id : option string) :
  NoDup (keys (if isEditMode id then partial userSchema else userSchema)).
Proof.
  assert (H : NoDup (keys userSchema)).
  { change (keys userSchema) with ["name"; "email"; "avatar"; "role"; "status"].
    repeat (constructor; [simpl; intuition discriminate|]). constructor. }
  destruct (isEditMode id); [now rewrite keys_partial|exact H].
Qed.

(** What the resolver accepts is what the schema of the mode accepts. *)
Lemma resolver_accepted (id : option string) (values : json) (data : object) :
  resolver id values = inr data ->
  parse_object (if isEditMode id then partial userSchema else userSchema) values
  = inr data.
Proof.
  unfold resolver.
  destruct (parse_object _ values); [discriminate|]. now intros [= ->].
Qed.

(** An avatar that is absent or empty in the form is absent or empty in
    the validated data. *)
Lemma empty_avatar_is_blank (id : option string) (props : list (string * json))
      (data : object) :
  resolver id (JObject props) = inr data ->
  get props "avatar" = None \/ get props "avatar" = Some (JString "") ->
  avatar_is_blank data = true.
Proof.
  intros Hr Ha. apply resolver_accepted in Hr.
  destruct (validated _ _ _ (form_schema_NoDup id) Hr) as [props' [[= <-] [Hin _]]].
  unfold avatar_is_blank.
  destruct (isEditMode id).
  - destruct (Hin "avatar" _ eq_refl) as [v [Pv ->]].
    destruct Ha as [Ha|Ha]; rewrite Ha in Pv.
    + injection Pv as <-. reflexivity.
    + apply parse_keeps_string in Pv as [s [[= <-] ->]]. reflexivity.
  - destruct (Hin "avatar" _ eq_refl) as [v [Pv ->]].
    destruct Ha as [Ha|Ha]; rewrite Ha in Pv.
    + injection Pv as <-. reflexivity.
    + apply parse_keeps_string in Pv as [s [[= <-] ->]]. reflexivity.
Qed.

(** C9, as the code has it: the form is validated first, and a form the
    resolver refuses ends in its field errors with nothing sent.  For a
    form the resolver accepts whose avatar is absent or the empty
    string, the data sent to the service are the validated data with the
    avatar set to the avatar-generation URL followed by the name, its
    first space replaced by a plus sign; no other property changes.  In
    create mode the validated data always hold a name. *)
Theorem empty_avatar_gets_placeholder_after_validation
        (id : option string) (props : list (string * json)) :
  (forall errors,
     resolver id (JObject props) = inl errors ->
     handleSubmit id (JObject props) = field_errors errors) /\
  (forall data n,
     resolver id (JObject props) = inr data ->
     get props "avatar" = None \/ get props "avatar" = Some (JString "") ->
     get data "name" = Some n ->
     let placeholder := "https://ui-avatars.com/api/?name=" ++ JS.replace " " "+" n in
     let sent := set data "avatar" placeholder in
     handleSubmit id (JObject props)
     = (if isEditMode id
        then updateUser (match id with Some s => s | None => "" end) sent
        else createUser sent) /\
     get sent "avatar" = Some placeholder /\
     (forall key, key <> "avatar" -> get sent key = get data key)) /\
  (forall data,
     resolver None (JObject props) = inr data ->
     exists n, get props "name" = Some (JString n) /\ get data "name" = Some n).
Proof.
  split; [|split].
  - intros errors Hr. unfold handleSubmit. now rewrite Hr.
  - intros data n Hr Ha Hn placeholder sent.
    split; [|split].
    + unfold handleSubmit, onSubmit. rewrite Hr.
      rewrite (empty_avatar_is_blank id props data Hr Ha), Hn.
      reflexivity.
    + apply get_set_same.
    + intros key Hkey. now apply get_set_other.
  - intros data Hr. apply resolver_accepted in Hr.
    simpl isEditMode in Hr. cbv iota in Hr.
    destruct (validated _ _ _ (form_schema_NoDup None) Hr) as [props' [[= <-] [Hin _]]].
    destruct (Hin "name" _ eq_refl) as [v [Pv Gv]].
    destruct (get props "name") as [j|]; [|discriminate].
    apply parse_keeps_string in Pv as [n [-> ->]]. eauto.
Qed.

End WithValidators.

End Submitting.

(* ================================================================== *)
(** ** The service on the sample instance *)

Module Examples.

Import Zod Db Server Sample.
Local Open Scope string_scope.
Local Open Scope Z_scope.

(** C1, as stated, fails on the example of the specification: the
    answer to the POST is 201, and its body is the id of the new row,
    not the row. *)
Lemma post_answers_with_the_id_only :
  post_user ana 1000 empty_table
  = (inr {| statusCode := 201; body := json_id 1 |}, ana_table 1000) /\
  json_id 1 <> json_user (ana_row 1000).
Proof. split; [reflexivity|discriminate]. Qed.

Lemma post_creates_row_and_returns_id_witness :
  parse_object userSchema ana = inr ana_validated /\
  any_too_long ana_validated = false /\
  exists props u,
    ana = JObject props /\
    post_user ana 1000 empty_table =
      (inr {| statusCode := 201; body := json_id (id u) |},
       {| rows := rows empty_table ++ [u];
          auto_increment := auto_increment empty_table + 1 |}) /\
    id u = auto_increment empty_table /\
    get props "name" = Some (JString (name u)) /\
    get props "email" = Some (JString (email u)) /\
    avatar u = as_string (get props "avatar") /\
    role u = or_default (as_string (get props "role")) "user" /\
    status u = or_default (as_string (get props "status")) "active" /\
    createdAt u = 1000 /\ updatedAt u = createdAt u.
Proof.
  split; [reflexivity|]. split; [reflexivity|].
  apply (Creating.post_creates_row_and_returns_id ana 1000 empty_table ana_validated).
  - reflexivity.
  - reflexivity.
  - intros e He. reflexivity.
Defined.

(** C2, as stated, fails for an avatar that is the empty string: the
    request is answered 400 and nothing is stored. *)
Lemma empty_string_avatar_is_refused :
  post_user (ana_with_avatar "") 1000 empty_table
  = (inr {| statusCode := 400;
            body := json_validation "Validation error"
                      [("avatar", Custom "Avatar must be a valid URL")] |},
     empty_table).
Proof. reflexivity. Qed.

Lemma avatar_is_stored_as_received_witness :
  exists u, rows (ana_table 1000) = (rows empty_table ++ [u])%list /\ avatar u = None.
Proof.
  destruct (Creating.avatar_is_stored_as_received
              [ ("name", JString "Ana Silva"); ("email", JString "ana@x.com");
                ("role", JString "user"); ("status", JString "active") ]
              1000 empty_table) as [_ [_ H]].
  apply (H {| statusCode := 201; body := json_id 1 |} (ana_table 1000));
    reflexivity.
Defined.



Lemma invalid_payload_is_rejected_before_storage_witness :
  let body := JObject [("name", JString "A"); ("role", JString "root")] in
  post_user body 2000 (ana_table 1000)
  = (inr {| statusCode := 400;
            body := json_validation "Validation error"
                      [("name", Custom "Name must be at least 2 characters long");
                       ("email", Required);
                       ("role", InvalidEnumValue ["admin"; "user"] "root")] |},
     ana_table 1000) /\
  put_user "1" body 2000 (ana_table 1000)
  = (inr {| statusCode := 400;
            body := json_validation "Validation error"
                      [("name", Custom "Name must be at least 2 characters long");
                       ("role", InvalidEnumValue ["admin"; "user"] "root")] |},
     ana_table 1000) /\
  violates_constraint "role" (JString "root") = true /\
  exists errors m,
    put_user "1" body 2000 (ana_table 1000)
    = (inr {| statusCode := 400;
              body := json_validation "Validation error" (listed errors) |},
       ana_table 1000) /\
    In ("role", m) (listed errors).
Proof.
  intros body.
  destruct (Rejecting.invalid_payload_is_rejected_before_storage
              body "1" 2000 (ana_table 1000)) as [Hpost [Hput [Hvalue _]]].
  split; [|split; [|split]].
  - destruct (Hpost [ {| path := ["name"];
                         msg := Custom "Name must be at least 2 characters long" |};
                      {| path := ["email"]; msg := Required |};
                      {| path := ["role"];
                         msg := InvalidEnumValue ["admin"; "user"] "root" |} ]
                    eq_refl) as [_ H].
    exact H.
  - destruct (Hput [ {| path := ["name"];
                        msg := Custom "Name must be at least 2 characters long" |};
                     {| path := ["role"];
                        msg := InvalidEnumValue ["admin"; "user"] "root" |} ]
                   eq_refl) as [_ H].
    exact H.
  - reflexivity.
  - destruct (Hvalue [("name", JString "A"); ("role", JString "root")]
                     "role" (JString "root") eq_refl eq_refl eq_refl) as [_ H].
    exact H.
Defined.



(** C6, as stated, fails for an update in the second of the creation:
    the PUT is answered 200 and updatedAt holds the value it held. *)
Lemma update_within_the_same_second :
  put_user "1" rename 1000 (ana_table 1000)
  = (inr {| statusCode := 200; body := json_user (renamed_row 1000 1000) |},
     {| rows := [renamed_row 1000 1000]; auto_increment := 2 |}) /\
  ~ updatedAt (ana_row 1000) < updatedAt (renamed_row 1000 1000).
Proof. split; [reflexivity|simpl; lia]. Qed.

Lemma put_changes_only_supplied_fields_witness :
  exists u', Server.body {| statusCode := 200;
                            body := json_user (renamed_row 1000 2000) |}
             = json_user u' /\
             In u' [renamed_row 1000 2000] /\
             id_is (JS.Number "1") u' = true.
Proof.
  destruct (Updating.put_changes_only_supplied_fields
              "1" rename 2000 (ana_table 1000)
              {| statusCode := 200; body := json_user (renamed_row 1000 2000) |}
              {| rows := [renamed_row 1000 2000]; auto_increment := 2 |}
              eq_refl eq_refl) as [props [_ [_ [_ H]]]].
  exact H.
Defined.

Lemma delete_removes_the_row_once_witness :
  names "1" 1 /\
  exists db',
    delete_user "1" (ana_table 1000)
    = (inr {| statusCode := 204; body := no_content |}, db') /\
    rows db' = filter (fun u => negb (id u =? 1)) (rows (ana_table 1000)) /\
    delete_user "1" db' =
      (inr {| statusCode := 404; body := json_message usuario_nao_encontrado |}, db') /\
    get_user "1" db' =
      (inr {| statusCode := 404; body := json_message usuario_nao_encontrado |}, db').
Proof.
  split; [reflexivity|].
  destruct (ById.delete_removes_the_row_once "1" 1 (ana_table 1000) eq_refl) as [_ H].
  apply H. exists (ana_row 1000). split; [left|]; reflexivity.
Defined.

(** C8, as stated, fails for a parameter that is a number but no
    integer: it passes the check and is looked up, and the three routes
    answer 404 (PUT when its body is valid). *)
Lemma fractional_id_is_looked_up :
  JS.isNaN (JS.Number "1.5") = false /\
  get_user "1.5" (ana_table 1000)
  = (inr {| statusCode := 404; body := json_message usuario_nao_encontrado |},
     ana_table 1000) /\
  put_user "1.5" rename 2000 (ana_table 1000)
  = (inr {| statusCode := 404; body := json_message usuario_nao_encontrado |},
     ana_table 1000) /\
  delete_user "1.5" (ana_table 1000)
  = (inr {| statusCode := 404; body := json_message usuario_nao_encontrado |},
     ana_table 1000).
Proof. repeat split; reflexivity. Qed.

Lemma not_a_number_id_is_refused_witness :
  JS.isNaN (JS.Number "abc") = true /\
  get_user "abc" (ana_table 1000)
  = (inr {| statusCode := 400; body := json_message formato_de_id_invalido |},
     ana_table 1000).
Proof.
  split; [reflexivity|].
  apply (ById.not_a_number_id_is_refused "abc" (ana_table 1000) eq_refl).
Defined.

(** C9, as stated, fails for an avatar of white space only: the
    resolver refuses the form, so no placeholder is made and nothing is
    sent. *)
Lemma blank_avatar_is_refused_by_the_form :
  Client.handleSubmit None (ana_with_avatar " ")
  = Client.field_errors [ {| path := ["avatar"]; msg := Custom Client.url_invalida |} ].
Proof. reflexivity. Qed.

Lemma empty_avatar_gets_placeholder_after_validation_witness :
  Client.handleSubmit None (ana_with_avatar "")
  = Client.createUser
      [ ("name", "Ana Silva"); ("email", "ana@x.com");
        ("avatar", "https://ui-avatars.com/api/?name=Ana+Silva");
        ("role", "user"); ("status", "active") ].
Proof.
  destruct (Submitting.empty_avatar_gets_placeholder_after_validation
              None
              [ ("name", JString "Ana Silva"); ("email", JString "ana@x.com");
                ("avatar", JString ""); ("role", JString "user");
                ("status", JString "active") ]) as [_ [H _]].
  destruct (H [ ("name", "Ana Silva"); ("email", "ana@x.com"); ("avatar", "");
                ("role", "user"); ("status", "active") ]
              "Ana Silva" eq_refl (or_intror eq_refl) eq_refl) as [Hsent _].
  exact Hsent.
Defined.

Lemma request_body_cannot_set_system_columns_witness :
  post_user forged 1000 empty_table
  = (inr {| statusCode := 201; body := json_id 1 |}, ana_table 1000) /\
  (rows (ana_table 1000) = rows empty_table \/
   exists u, rows (ana_table 1000) = (rows empty_table ++ [u])%list /\
             id u = auto_increment empty_table /\
             createdAt u = 1000 /\ updatedAt u = 1000).
Proof.
  split; [reflexivity|].
  destruct (Updating.request_body_cannot_set_system_columns forged) as [_ [H _]].
  apply (H 1000 empty_table {| statusCode := 201; body := json_id 1 |} (ana_table 1000)).
  reflexivity.
Defined.

End Examples.

(* ================================================================== *)
(** ** Path parameters written in decimal digits *)

Module Reading.

Import Db Server.
Local Open Scope string_scope.
Local Open Scope Z_scope.

Lemma digits2_pos_lower (p : positive) :
  2 ^ (Z.pos (digits2_pos p) - 1) <= Z.pos p.
Proof.
  induction p as [p IH|p IH|]; simpl digits2_pos.
  - rewrite Pos2Z.inj_succ. replace (Z.succ (Z.pos (digits2_pos p)) - 1)
      with (Z.succ (Z.pos (digits2_pos p) - 1)) by lia.
    rewrite Z.pow_succ_r by lia. lia.
  - rewrite Pos2Z.inj_succ. replace (Z.succ (Z.pos (digits2_pos p)) - 1)
      with (Z.succ (Z.pos (digits2_pos p) - 1)) by lia.
    rewrite Z.pow_succ_r by lia. lia.
  - simpl. lia.
Qed.

Lemma digits2_pos_shift (p k : positive) :
  digits2_pos (Pos.iter xO p k) = (digits2_pos p + k)%positive.
Proof.
  induction k as [|k IH] using Pos.peano_ind.
  - simpl. lia.
  - rewrite Pos.iter_succ. simpl. rewrite IH. lia.
Qed.

Lemma pos_shift (p k : positive) :
  Z.pos (Pos.iter xO p k) = Z.pos p * 2 ^ Z.pos k.
Proof.
  induction k as [|k IH] using Pos.peano_ind.
  - simpl. lia.
  - rewrite Pos.iter_succ, Pos2Z.inj_xO, IH, Pos2Z.inj_succ, Z.pow_succ_r by lia. lia.
Qed.


Lemma round_aux_53 (neg : bool) (m : positive) (e : Z) :
  Z.pos (digits2_pos m) = 53 -> -1074 <= e <= 971 ->
  binary_round_aux 53 1024 neg (Z.pos m) e loc_Exact = S754_finite neg m e.
Proof.
  intros Hd He.
  assert (Hz : fexp 53 1024 (53 + e) - e = 0) by (unfold fexp, emin; lia).
  unfold binary_round_aux, shr_fexp.
  change IntDef.Z.sub with Z.sub. change IntDef.Z.add with Z.add.
  cbn [Zdigits2 shr_record_of_loc]. rewrite Hd, Hz.
  cbn [shr shr_m loc_of_shr_record round_nearest_even Zdigits2 shr_record_of_loc].
  rewrite Hd, Hz.
  cbn [shr shr_m].
  change (1024 - 53) with 971.
  replace (e <=? 971) with true by (symmetry; apply Z.leb_le; lia).
  reflexivity.
Qed.

Lemma binary_round_exact (neg : bool) (p : positive) (n : Z) :
  Z.pos p < 2 ^ 53 ->
  JS.equals_int (binary_round 53 1024 neg p 0) n
  = (n =? (if neg then Z.neg p else Z.pos p)).
Proof.
  intros Hp.
  assert (Hd : Z.pos (digits2_pos p) <= 53).
  { pose proof (digits2_pos_lower p) as Hl.
    destruct (Z_le_gt_dec (Z.pos (digits2_pos p)) 53) as [|Hgt]; [assumption|].
    assert (2 ^ 53 <= 2 ^ (Z.pos (digits2_pos p) - 1)) by (apply Z.pow_le_mono_r; lia).
    lia. }
  unfold binary_round.
  assert (Hf : fexp 53 1024 (Z.pos (digits2_pos p) + 0) = Z.pos (digits2_pos p) - 53).
  { unfold fexp, emin. lia. }
  rewrite Hf. unfold shl_align.
  destruct (Z.pos (digits2_pos p) - 53 - 0) as [|q|k] eqn:Hk; try lia.
  - rewrite round_aux_53 by lia. simpl.
    destruct neg; f_equal; lia.
  - rewrite round_aux_53
      by (rewrite ?digits2_pos_shift; lia).
    unfold JS.equals_int.
    replace (0 <=? Z.pos (digits2_pos p) - 53) with false by (symmetry; apply Z.leb_gt; lia).
    replace (- (Z.pos (digits2_pos p) - 53)) with (Z.pos k) by lia.
    assert (Hpow : 0 < 2 ^ Z.pos k) by (apply Z.pow_pos_nonneg; lia).
    destruct neg.
    + change (Z.neg (Pos.iter xO p k)) with (- Z.pos (Pos.iter xO p k)).
      rewrite pos_shift.
      destruct (Z.eqb_spec n (Z.neg p)) as [->|Hne].
      * apply Z.eqb_eq. lia.
      * apply Z.eqb_neq. intros Heq. apply Hne.
        apply (Z.mul_cancel_r _ _ (2 ^ Z.pos k)); lia.
    + rewrite pos_shift.
      destruct (Z.eqb_spec n (Z.pos p)) as [->|Hne].
      * apply Z.eqb_eq. lia.
      * apply Z.eqb_neq. intros Heq. apply Hne.
        apply (Z.mul_cancel_r _ _ (2 ^ Z.pos k)); lia.
Qed.


Lemma read_digits_uint_pos (d : Decimal.uint) (p : positive) :
  JS.read_digits 10 (N.pos p) (NilEmpty.string_of_uint d)
  = (N.pos (Pos.of_uint_acc d p), Decimal.nb_digits d, "").
Proof.
  revert p.
  induction d as [|d IH|d IH|d IH|d IH|d IH|d IH|d IH|d IH|d IH|d IH]; intros p;
    [reflexivity|..];
    cbn [NilEmpty.string_of_uint JS.read_digits Pos.of_uint_acc Decimal.nb_digits];
    match goal with
    | |- context [JS.digit_value 10 ?c] =>
        let v := eval vm_compute in (JS.digit_value 10 c) in
        change (JS.digit_value 10 c) with v
    end; cbv iota beta;
    match goal with
    | |- context [JS.read_digits 10 ?a _] =>
        match goal with
        | |- context [Pos.of_uint_acc _ ?q] => replace a with (N.pos q) by lia
        end
    end; rewrite IH; reflexivity.
Qed.

Lemma read_digits_uint (d : Decimal.uint) :
  JS.read_digits 10 0 (NilEmpty.string_of_uint d)
  = (N.of_uint d, Decimal.nb_digits d, "").
Proof.
  induction d as [|d IH|d IH|d IH|d IH|d IH|d IH|d IH|d IH|d IH|d IH];
    [reflexivity|..];
    cbn [NilEmpty.string_of_uint JS.read_digits Decimal.nb_digits];
    match goal with
    | |- context [JS.digit_value 10 ?c] =>
        let v := eval vm_compute in (JS.digit_value 10 c) in
        change (JS.digit_value 10 c) with v
    end; cbv iota beta.
  - change (0 * 10 + 0)%N with 0%N. rewrite IH. reflexivity.
  - change (0 * 10 + 1)%N with (N.pos 1). now rewrite read_digits_uint_pos.
  - change (0 * 10 + 2)%N with (N.pos 2). now rewrite read_digits_uint_pos.
  - change (0 * 10 + 3)%N with (N.pos 3). now rewrite read_digits_uint_pos.
  - change (0 * 10 + 4)%N with (N.pos 4). now rewrite read_digits_uint_pos.
  - change (0 * 10 + 5)%N with (N.pos 5). now rewrite read_digits_uint_pos.
  - change (0 * 10 + 6)%N with (N.pos 6). now rewrite read_digits_uint_pos.
  - change (0 * 10 + 7)%N with (N.pos 7). now rewrite read_digits_uint_pos.
  - change (0 * 10 + 8)%N with (N.pos 8). now rewrite read_digits_uint_pos.
  - change (0 * 10 + 9)%N with (N.pos 9). now rewrite read_digits_uint_pos.
Qed.

(** Decimal digits are no white space. *)
Lemma trim_digits (d : Decimal.uint) :
  JS.trim (NilEmpty.string_of_uint d) = NilEmpty.string_of_uint d.
Proof.
  unfold JS.trim.
  assert (Hs : JS.trimStart (NilEmpty.string_of_uint d) = NilEmpty.string_of_uint d)
    by (destruct d; reflexivity).
  rewrite Hs.
  induction d as [|d IH|d IH|d IH|d IH|d IH|d IH|d IH|d IH|d IH|d IH];
    [reflexivity|..];
    cbn [NilEmpty.string_of_uint JS.trimEnd];
    (rewrite IH by (destruct d; reflexivity));
    destruct d; reflexivity.
Qed.

Lemma Number_digits (d : Decimal.uint) :
  d <> Decimal.Nil ->
  JS.Number (NilEmpty.string_of_uint d) = JS.number_value false (N.of_uint d) 0.
Proof.
  intros Hd. unfold JS.Number. rewrite trim_digits.
  assert (Hnd : JS.read_non_decimal (NilEmpty.string_of_uint d) = None).
  { destruct d as [|d|d|d|d|d|d|d|d|d|d]; try reflexivity.
    destruct d; reflexivity. }
  assert (Hdec : JS.read_decimal (NilEmpty.string_of_uint d) = Some (N.of_uint d, 0%Z)).
  { unfold JS.read_decimal. rewrite read_digits_uint.
    destruct d; try contradiction; reflexivity. }
  rewrite Hnd.
  destruct d; try contradiction;
    cbn [NilEmpty.string_of_uint JS.read_sign] in *;
    (match goal with
     | |- context [String.eqb ?s "Infinity"] =>
         replace (String.eqb s "Infinity") with false by reflexivity
     end);
    rewrite Hdec; reflexivity.
Qed.

Lemma decimal_names (n : N) :
  (n < 2 ^ 53)%N -> names (JSLib.decimal n) (Z.of_N n).
Proof.
  intros Hn. unfold names, JSLib.decimal.
  assert (Hnil : N.to_uint n <> Decimal.Nil).
  { destruct n; [discriminate|]. simpl. apply DecimalPos.Unsigned.to_uint_nonnil. }
  assert (Hs : NilZero.string_of_uint (N.to_uint n) = NilEmpty.string_of_uint (N.to_uint n)).
  { destruct (N.to_uint n); [contradiction|reflexivity..]. }
  rewrite Hs, (Number_digits _ Hnil), DecimalN.Unsigned.of_to.
  destruct n as [|p]; [reflexivity|].
  unfold JS.number_value. change (0 <=? 0)%Z with true. cbv iota.
  change (10 ^ 0)%Z with 1%Z. rewrite Z.mul_1_r.
  change (binary_normalize 53 1024 (Z.pos p) 0 false) with (binary_round 53 1024 false p 0).
  rewrite binary_round_exact; [apply Z.eqb_refl|].
  change (2 ^ 53)%Z with (Z.of_N (2 ^ 53)). lia.
Qed.

Lemma id_names (k : Z) :
  0 <= k < 2 ^ 53 -> names (JSLib.decimal (Z.to_N k)) k.
Proof.
  intros Hk. rewrite <- (Z2N.id k) at 2 by lia. apply decimal_names.
  change (2 ^ 53)%N with (Z.to_N (2 ^ 53)). apply Z2N.inj_lt; lia.
Qed.

(** X3: the decimal digits of an integer below 2^53 read back as that
    integer and as no other: [Number(`${n}`)] is [n], exactly. *)
Theorem decimal_reads_back (n : N) (m : Z) :
  (n < 2 ^ 53)%N -> (names (JSLib.decimal n) m <-> m = Z.of_N n).
Proof.
  intros Hn. pose proof (decimal_names n Hn) as Hname. split.
  - intros Hm. unfold names in Hm.
    rewrite (ById.equals_int_unique _ _ m Hname) in Hm. now apply Z.eqb_eq.
  - now intros ->.
Qed.

Lemma decimal_reads_back_witness : names (JSLib.decimal 42) 42 <-> 42 = Z.of_N 42.
Proof. apply (decimal_reads_back 42 42). reflexivity. Defined.

Section WithService.

Context {V : Zod.Validators} {E : Engine}.

Lemma filter_single (n : Z) (l : list user) (u : user) :
  NoDup (map id l) -> In u l -> id u = n ->
  filter (fun w => id w =? n) l = [u].
Proof.
  induction l as [|w rest IH]; simpl; intros Hnd Hin Hid; [contradiction|].
  inversion Hnd as [|? ? Hnot Hnd']; subst.
  destruct Hin as [->|Hin].
  - rewrite Z.eqb_refl. f_equal.
    apply ById.filter_absent. intros v Hv Heq.
    apply Hnot. rewrite <- Heq. now apply in_map.
  - destruct (Z.eqb_spec (id w) (id u)) as [Heq|_]; [|auto].
    exfalso. apply Hnot. rewrite Heq. now apply in_map.
Qed.

(** X4: following the link of a card: in a table whose ids are distinct,
    GET with the decimal digits of the id of a row answers 200 with that
    row, and leaves the table as it is. *)
Theorem get_by_decimal_id (db : database) (u : user) :
  Table.ids_distinct db -> In u (rows db) -> 0 <= id u < 2 ^ 53 ->
  get_user (JSLib.decimal (Z.to_N (id u))) db
  = (inr {| statusCode := 200; body := json_user u |}, db).
Proof.
  intros Hnd Hin Hid.
  pose proof (id_names (id u) Hid) as Hname.
  unfold get_user, try_catch, bind.
  destruct (ById.equals_int_finite _ _ Hname) as [_ ->].
  rewrite (ById.select_named _ _ db Hname).
  now rewrite (filter_single (id u) (rows db) u Hnd Hin eq_refl).
Qed.

End WithService.

End Reading.

(* ================================================================== *)
(** ** What the table keeps over any sequence of requests *)

Module Keeping.

Import Zod ZodFacts SchemaFacts Db Server RouteFacts Table.
Local Open Scope string_scope.
Local Open Scope Z_scope.

Section WithService.

Context {V : Validators} {E : Engine}.

Lemma post_user_change (body : json) (now : Z) (db : database) :
  change db (snd (post_user body now db)).
Proof.
  destruct (parse_object userSchema body) as [errors|vals] eqn:Hp.
  - rewrite (post_user_rejected body now db errors Hp). constructor.
  - destruct (post_user_validated body now db vals Hp) as [-> Hsys].
    rewrite (create_cases now vals db Hsys).
    destruct (get vals "name") as [n|] eqn:Hn; [|constructor].
    destruct (get vals "email") as [e|] eqn:He; [|constructor].
    destruct (any_too_long vals) eqn:Hfit; [constructor|].
    destruct (email_in_use e db) eqn:Huse; simpl; [constructor|].
    now apply (row_created db body vals n e now).
Qed.

Lemma put_user_change (param : string) (body : json) (now : Z) (db : database) :
  change db (snd (put_user param body now db)).
Proof.
  destruct (parse_object userUpdateSchema body) as [errors|vals] eqn:Hp.
  { rewrite (put_user_rejected param body now db errors Hp). constructor. }
  destruct (Updating.put_user_validated param body now db vals Hp) as [-> Hsys].
  unfold modify, try_catch, bind.
  destruct (JS.isNaN (JS.Number param)); [constructor|].
  unfold select_where_id at 1.
  destruct (JS.isFinite (JS.Number param)) eqn:Hfin.
  2:{ destruct nonfinite_id as [e|]; [|constructor].
      unfold on_write_error. destruct (error_code_eqb e ER_DUP_ENTRY); constructor. }
  destruct (filter (id_is (JS.Number param)) (rows db)) as [|u found] eqn:Hf;
    [constructor|].
  destruct (Updating.filter_found _ _ _ _ Hf) as [Hex _].
  unfold update. rewrite Hsys, Hfin, Hex. simpl negb. cbv iota.
  destruct (any_too_long vals) eqn:Hfit; [constructor|].
  destruct (email_taken (JS.Number param) vals db) eqn:Htaken; [constructor|].
  unfold select_where_id. rewrite Hfin. simpl snd.
  now apply (rows_modified db (JS.Number param) body vals now).
Qed.

Lemma delete_user_change (param : string) (db : database) :
  change db (snd (delete_user param db)).
Proof.
  unfold delete_user, try_catch, bind.
  destruct (JS.isNaN (JS.Number param)); [constructor|].
  unfold select_where_id.
  destruct (JS.isFinite (JS.Number param)) eqn:Hfin.
  - destruct (filter (id_is (JS.Number param)) (rows db)); [constructor|].
    unfold delete. rewrite Hfin. simpl. now constructor.
  - destruct nonfinite_id; constructor.
Qed.

(** Every request changes the table in one of the five ways. *)
Lemma serve_change (req : request) (now : Z) (db : database) :
  change db (snd (serve req now db)).
Proof.
  destruct req as [|param|body|param body|param]; simpl.
  - constructor.
  - unfold get_user, try_catch, bind.
    destruct (JS.isNaN (JS.Number param)); [constructor|].
    unfold select_where_id.
    destruct (JS.isFinite (JS.Number param)).
    + destruct (filter _ (rows db)); constructor.
    + destruct nonfinite_id; constructor.
  - apply post_user_change.
  - apply put_user_change.
  - apply delete_user_change.
Qed.

(** What every change keeps, every sequence of requests keeps. *)
Lemma run_keeps (P : database -> Prop) :
  (forall db db', change db db' -> P db -> P db') ->
  forall reqs db, P db -> P (run reqs db).
Proof.
  intros Hstep reqs. induction reqs as [|[req now] rest IH]; intros db HP; simpl.
  - exact HP.
  - apply IH. eapply Hstep; [apply serve_change|exact HP].
Qed.

(** *** Ids *)

(** Rows that go leave the ids of the others distinct. *)
Lemma ids_of_remaining (gone : user -> bool) (table : list user) :
  NoDup (map id table) -> NoDup (map id (filter (fun u => negb (gone u)) table)).
Proof.
  intros Hnd. induction table as [|u rest IH]; [constructor|].
  inversion Hnd as [|? ? Hnot Hnd']; subst. simpl.
  destruct (gone u); simpl; [auto|].
  constructor; [|auto].
  intros Hin. apply Hnot. apply in_map_iff in Hin as [w [Hw Hin]].
  apply filter_In in Hin as [Hin _]. rewrite <- Hw. now apply in_map.
Qed.

Lemma map_id_updated (x : spec_float) (vals : object) (now : Z) (l : list user) :
  map id (map (fun u => if id_is x u then assign vals now u else u) l) = map id l.
Proof.
  rewrite map_map. apply map_ext. intros u. now destruct (id_is x u).
Qed.

Lemma change_keeps_ids (db db' : database) :
  change db db' ->
  below_counter db /\ ids_distinct db -> below_counter db' /\ ids_distinct db'.
Proof.
  unfold below_counter, ids_distinct.
  intros Hc [Hb Hd].
  destruct Hc as [| |body vals n e now _ _ _ _ _|x body vals now _ _ _ _|x _]; simpl.
  - auto.
  - split; [|exact Hd]. eapply Forall_impl; [|exact Hb]. simpl; intros; lia.
  - split.
    + apply Forall_app. split.
      * eapply Forall_impl; [|exact Hb]. simpl; intros; lia.
      * constructor; [simpl; lia|constructor].
    + rewrite map_app. simpl.
      apply NoDup_app; [exact Hd|constructor; [simpl; tauto|constructor]|].
      intros k Hk [<-|[]].
      apply in_map_iff in Hk as [w [Hw Hin]].
      rewrite Forall_forall in Hb. specialize (Hb w Hin). lia.
  - split.
    + apply Forall_map. eapply Forall_impl; [|exact Hb].
      simpl. intros w Hw. now destruct (id_is x w).
    + now rewrite map_id_updated.
  - split.
    + apply Forall_forall. intros w Hw. apply filter_In in Hw as [Hw _].
      rewrite Forall_forall in Hb. auto.
    + now apply ids_of_remaining.
Qed.

(** X5: ids are never shared: from a table whose ids are distinct and below
    the counter, every sequence of requests leads to such a table. *)
Theorem ids_stay_distinct (reqs : list (request * Z)) (db : database) :
  below_counter db -> ids_distinct db ->
  below_counter (run reqs db) /\ ids_distinct (run reqs db).
Proof.
  intros Hb Hd.
  apply (run_keeps (fun d => below_counter d /\ ids_distinct d)); [|auto].
  intros d d' Hc. now apply change_keeps_ids.
Qed.

(** *** Rows that conform to the schema *)

Lemma kept_passes (s : schema) (data : option json) (v : string) :
  parse s data = OK (Some v) -> parse s (Some (JString v)) = OK (Some v).
Proof. intros H. exact (FormAndApi.parse_again s data (Some v) H). Qed.

Lemma name_passes (text n : string) :
  parse (z_string [min 2 text]) (Some (JString n)) = OK (Some n) ->
  (2 <=? String.length n)%nat = true.
Proof.
  intros H. simpl in H.
  destruct (String.length n <? 2)%nat eqn:Hlt; [discriminate|].
  apply Nat.ltb_ge in Hlt. now apply Nat.leb_le.
Qed.

Lemma email_passes (text e : string) :
  parse (z_string [Zod.email text]) (Some (JString e)) = OK (Some e) ->
  isEmail e = true.
Proof. simpl. now destruct (isEmail e). Qed.

Lemma avatar_passes (text a : string) :
  parse (z_string [url text]) (Some (JString a)) = OK (Some a) ->
  isUrl a = true.
Proof. simpl. now destruct (isUrl a). Qed.

Lemma enum_passes (first second r : string) :
  parse (z_enum [first; second] None) (Some (JString r)) = OK (Some r) ->
  String.eqb r first || String.eqb r second = true.
Proof.
  simpl. rewrite orb_false_r.
  now destruct (String.eqb r first || String.eqb r second).
Qed.

Lemma conforms_intro (u : user) :
  (2 <=? String.length (name u))%nat = true ->
  isEmail (email u) = true ->
  match avatar u with Some a => isUrl a | None => true end = true ->
  String.eqb (role u) "admin" || String.eqb (role u) "user" = true ->
  String.eqb (status u) "active" || String.eqb (status u) "inactive" = true ->
  conforms u = true.
Proof. unfold conforms. intros -> -> -> -> ->. reflexivity. Qed.

Lemma conforms_elim (u : user) :
  conforms u = true ->
  (2 <=? String.length (name u))%nat = true /\
  isEmail (email u) = true /\
  match avatar u with Some a => isUrl a | None => true end = true /\
  String.eqb (role u) "admin" || String.eqb (role u) "user" = true /\
  String.eqb (status u) "active" || String.eqb (status u) "inactive" = true.
Proof.
  unfold conforms. intros H.
  repeat (apply andb_true_iff in H as [H ?]). auto.
Qed.

Lemma created_conforms (body : json) (vals : object) (n e : string) (now : Z)
      (db : database) :
  parse_object userSchema body = inr vals ->
  get vals "name" = Some n -> get vals "email" = Some e ->
  conforms (inserted vals n e now db) = true.
Proof.
  intros Hp Hn He.
  destruct (validated _ _ _ userSchema_NoDup Hp) as [props [_ [Hin _]]].
  destruct (Hin "name" _ eq_refl) as [vn [Pn Gn]].
  destruct (Hin "email" _ eq_refl) as [ve [Pe Ge]].
  destruct (Hin "avatar" _ eq_refl) as [va [Pa Ga]].
  destruct (Hin "role" _ eq_refl) as [vr [Pr Gr]].
  destruct (Hin "status" _ eq_refl) as [vs [Ps Gs]].
  rewrite Hn in Gn. rewrite He in Ge. subst vn ve.
  apply conforms_intro; unfold inserted; simpl.
  - apply kept_passes in Pn. exact (name_passes _ _ Pn).
  - apply kept_passes in Pe. exact (email_passes _ _ Pe).
  - rewrite Ga. destruct va as [a|]; [|reflexivity].
    apply kept_passes in Pa. exact (avatar_passes _ _ Pa).
  - rewrite Gr. destruct vr as [r|]; [|reflexivity].
    apply kept_passes in Pr. exact (enum_passes _ _ _ Pr).
  - rewrite Gs. destruct vs as [r|]; [|reflexivity].
    apply kept_passes in Ps. exact (enum_passes _ _ _ Ps).
Qed.

Lemma assigned_conforms (body : json) (vals : object) (now : Z) (u : user) :
  parse_object userUpdateSchema body = inr vals ->
  conforms u = true ->
  conforms (assign vals now u) = true.
Proof.
  intros Hp Hu.
  destruct (conforms_elim u Hu) as [Un [Ue [Ua [Ur Us]]]].
  destruct (validated _ _ _ userUpdateSchema_NoDup Hp) as [props [_ [Hin _]]].
  destruct (Hin "name" _ eq_refl) as [vn [Pn Gn]].
  destruct (Hin "email" _ eq_refl) as [ve [Pe Ge]].
  destruct (Hin "avatar" _ eq_refl) as [va [Pa Ga]].
  destruct (Hin "role" _ eq_refl) as [vr [Pr Gr]].
  destruct (Hin "status" _ eq_refl) as [vs [Ps Gs]].
  apply conforms_intro; unfold assign; simpl.
  - rewrite Gn. destruct vn as [n|]; [|exact Un].
    apply kept_passes in Pn. exact (name_passes _ _ Pn).
  - rewrite Ge. destruct ve as [e|]; [|exact Ue].
    apply kept_passes in Pe. exact (email_passes _ _ Pe).
  - rewrite Ga. destruct va as [a|]; [|exact Ua].
    apply kept_passes in Pa. exact (avatar_passes _ _ Pa).
  - rewrite Gr. destruct vr as [r|]; [|exact Ur].
    apply kept_passes in Pr. exact (enum_passes _ _ _ Pr).
  - rewrite Gs. destruct vs as [r|]; [|exact Us].
    apply kept_passes in Ps. exact (enum_passes _ _ _ Ps).
Qed.

(** X6: the rows stay valid: from a table whose rows all pass the checks
    of the create schema (name of
    two characters or more, e-mail, avatar null or a URL, role admin or
    user, status active or inactive), every sequence of requests leads to
    such a table. *)
Theorem rows_stay_conforming (reqs : list (request * Z)) (db : database) :
  Forall (fun u => conforms u = true) (rows db) ->
  Forall (fun u => conforms u = true) (rows (run reqs db)).
Proof.
  apply (run_keeps (fun d => Forall (fun u => conforms u = true) (rows d))).
  intros d d' Hc Hall.
  destruct Hc as [| |body vals n e now Hp Hn He _ _|x body vals now Hp _ _ _|x _]; simpl.
  - exact Hall.
  - exact Hall.
  - apply Forall_app. split; [exact Hall|].
    constructor; [|constructor]. exact (created_conforms body vals n e now d Hp Hn He).
  - apply Forall_map. eapply Forall_impl; [|exact Hall].
    simpl. intros w Hw. destruct (id_is x w); [|exact Hw].
    exact (assigned_conforms body vals now w Hp Hw).
  - apply Forall_forall. intros w Hw. apply filter_In in Hw as [Hw _].
    rewrite Forall_forall in Hall. auto.
Qed.

(** *** E-mails *)

Lemma same_email_sym (a b : string) : same_email a b = same_email b a.
Proof. unfold same_email. apply String.eqb_sym. Qed.

Lemma pairs_filter {A : Type} (R : A -> A -> Prop) (p : A -> bool) (l : list A) :
  ForallOrdPairs R l -> ForallOrdPairs R (filter p l).
Proof.
  induction 1 as [|a rest Ha _ IH]; simpl; [constructor|].
  destruct (p a); [|exact IH].
  constructor; [|exact IH].
  apply Forall_forall. intros b Hb. apply filter_In in Hb as [Hb _].
  rewrite Forall_forall in Ha. auto.
Qed.

Lemma pairs_snoc {A : Type} (R : A -> A -> Prop) (l : list A) (u : A) :
  ForallOrdPairs R l -> Forall (fun w => R w u) l -> ForallOrdPairs R (l ++ [u]).
Proof.
  induction 1 as [|a rest Ha _ IH]; simpl; intros Hu.
  - constructor; constructor.
  - inversion Hu as [|? ? Hau Hrest]; subst.
    constructor; [|auto].
    apply Forall_app. split; [exact Ha|]. constructor; [exact Hau|constructor].
Qed.

Lemma pairs_map {A : Type} (Q R : A -> A -> Prop) (f : A -> A) (l : list A) :
  (forall a b, In a l -> In b l -> Q a b -> R (f a) (f b)) ->
  ForallOrdPairs Q l -> ForallOrdPairs R (map f l).
Proof.
  intros Hf Hq. induction Hq as [|a rest Ha _ IH]; simpl; [constructor|].
  constructor.
  - apply Forall_map. apply Forall_forall. intros b Hb.
    rewrite Forall_forall in Ha.
    apply Hf; [now left|now right|auto].
  - apply IH. intros x y Hx Hy. apply Hf; now right.
Qed.

Lemma pairs_with_ids (l : list user) :
  NoDup (map id l) ->
  ForallOrdPairs (fun u w => same_email (email u) (email w) = false) l ->
  ForallOrdPairs (fun u w => same_email (email u) (email w) = false /\ id u <> id w) l.
Proof.
  intros Hnd Hp. induction Hp as [|a rest Ha _ IH]; [constructor|].
  simpl in Hnd. inversion Hnd as [|? ? Hnot Hnd']; subst.
  constructor; [|auto].
  apply Forall_forall. intros b Hb. rewrite Forall_forall in Ha.
  split; [auto|].
  intros Heq. apply Hnot. rewrite Heq. now apply in_map.
Qed.

(** Two rows of different ids after an update that found no e-mail
    taken: their e-mails still differ. *)
Lemma assigned_emails_differ (x : spec_float) (vals : object) (now : Z)
      (db : database) (a b : user) :
  email_taken x vals db = false ->
  In a (rows db) -> In b (rows db) ->
  same_email (email a) (email b) = false /\ id a <> id b ->
  same_email (email (if id_is x a then assign vals now a else a))
             (email (if id_is x b then assign vals now b else b)) = false.
Proof.
  intros Htaken Ha Hb [Hab Hid].
  assert (Hother : forall e w, get vals "email" = Some e -> In w (rows db) ->
                   id_is x w = false -> same_email e (email w) = false).
  { intros e w He Hw Hx. unfold email_taken in Htaken. rewrite He in Htaken.
    destruct (same_email e (email w)) eqn:Hs; [|reflexivity].
    assert (Hex : existsb (fun u => negb (id_is x u) && same_email e (email u))
                          (rows db) = true).
    { apply existsb_exists. exists w. split; [exact Hw|]. now rewrite Hx, Hs. }
    congruence. }
  destruct (id_is x a) eqn:Xa, (id_is x b) eqn:Xb.
  - exfalso. apply Hid. unfold id_is in Xa, Xb.
    rewrite (ById.equals_int_unique x (id a) (id b) Xa) in Xb.
    apply Z.eqb_eq in Xb. congruence.
  - unfold assign; simpl. destruct (get vals "email") as [e|] eqn:He; simpl; [|exact Hab].
    now apply Hother.
  - unfold assign; simpl. destruct (get vals "email") as [e|] eqn:He; simpl; [|exact Hab].
    rewrite same_email_sym. now apply Hother.
  - exact Hab.
Qed.

Lemma change_keeps_emails (db db' : database) :
  change db db' ->
  ids_distinct db -> emails_distinct db -> emails_distinct db'.
Proof.
  unfold ids_distinct, emails_distinct.
  intros Hc Hd He.
  destruct Hc as [| |body vals n e now _ _ _ _ Huse|x body vals now _ _ _ Htaken|x _]; simpl.
  - exact He.
  - exact He.
  - apply pairs_snoc; [exact He|].
    apply Forall_forall. intros w Hw. simpl. rewrite same_email_sym.
    unfold email_in_use in Huse.
    destruct (same_email e (email w)) eqn:Hs; [|reflexivity].
    assert (Hex : existsb (fun u => same_email e (email u)) (rows db) = true)
      by (apply existsb_exists; eauto).
    congruence.
  - apply (pairs_map
             (fun u w => same_email (email u) (email w) = false /\ id u <> id w)).
    + intros a b Ha Hb Hab. now apply (assigned_emails_differ x vals now db).
    + now apply pairs_with_ids.
  - now apply pairs_filter.
Qed.

(** X7: the unique index holds: from a table whose ids are distinct and
    below the counter and whose e-mails do not collide, every sequence of
    requests leads to a table whose e-mails do not collide. *)
Theorem emails_stay_distinct (reqs : list (request * Z)) (db : database) :
  below_counter db -> ids_distinct db -> emails_distinct db ->
  emails_distinct (run reqs db).
Proof.
  intros Hb Hd He.
  assert (H : (below_counter (run reqs db) /\ ids_distinct (run reqs db)) /\
              emails_distinct (run reqs db)); [|tauto].
  apply (run_keeps (fun d => (below_counter d /\ ids_distinct d) /\ emails_distinct d));
    [|tauto].
  intros d d' Hc [Hids Hem]. split.
  - now apply (change_keeps_ids d d').
  - apply (change_keeps_emails d d' Hc); tauto.
Qed.

End WithService.

End Keeping.

(* ================================================================== *)
(** ** Answers: statuses, errors and round trips *)

Module Answers.

Import Zod ZodFacts SchemaFacts Db Server RouteFacts Table.
Local Open Scope string_scope.
Local Open Scope Z_scope.

Section WithService.

Context {V : Validators} {E : Engine}.

Ltac answered := do 2 eexists; split; [reflexivity|simpl; tauto].

(** X8: each route answers, and only with the statuses of its own: no error
    escapes a handler, whatever the request and the table. *)
Theorem every_answer_has_a_status_of_its_route (req : request) (now : Z) (db : database) :
  exists r db',
    serve req now db = (inr r, db') /\
    In (statusCode r)
       match req with
       | GET_users => [200; 500]
       | GET_user _ => [200; 400; 404; 500]
       | POST_user _ => [201; 400; 409; 500]
       | PUT_user _ _ => [200; 400; 404; 409; 500]
       | DELETE_user _ => [204; 400; 404; 500]
       end.
Proof.
  destruct req as [|param|body|param body|param]; simpl.
  - answered.
  - unfold get_user, try_catch, bind.
    destruct (JS.isNaN (JS.Number param)); [answered|].
    unfold select_where_id.
    destruct (JS.isFinite (JS.Number param)).
    + destruct (filter _ (rows db)); answered.
    + destruct nonfinite_id; answered.
  - destruct (parse_object userSchema body) as [errors|vals] eqn:Hp.
    + rewrite (post_user_rejected body now db errors Hp). answered.
    + destruct (post_user_validated body now db vals Hp) as [-> Hsys].
      rewrite (create_cases now vals db Hsys).
      destruct (get vals "name"); [|answered].
      destruct (get vals "email") as [e|]; [|answered].
      destruct (any_too_long vals); [answered|].
      destruct (email_in_use e db); answered.
  - destruct (parse_object userUpdateSchema body) as [errors|vals] eqn:Hp.
    + rewrite (put_user_rejected param body now db errors Hp). answered.
    + destruct (Updating.put_user_validated param body now db vals Hp) as [-> Hsys].
      unfold modify, try_catch, bind.
      destruct (JS.isNaN (JS.Number param)); [answered|].
      unfold select_where_id at 1.
      destruct (JS.isFinite (JS.Number param)) eqn:Hfin.
      2:{ destruct nonfinite_id as [e|]; [|answered].
          unfold on_write_error. destruct (error_code_eqb e ER_DUP_ENTRY); answered. }
      destruct (filter (id_is (JS.Number param)) (rows db)) as [|u found] eqn:Hf;
        [answered|].
      destruct (Updating.filter_found _ _ _ _ Hf) as [Hex _].
      unfold update. rewrite Hsys, Hfin, Hex. simpl negb. cbv iota.
      destruct (any_too_long vals); [answered|].
      destruct (email_taken (JS.Number param) vals db); [answered|].
      unfold select_where_id. rewrite Hfin. answered.
  - unfold delete_user, try_catch, bind.
    destruct (JS.isNaN (JS.Number param)); [answered|].
    unfold select_where_id.
    destruct (JS.isFinite (JS.Number param)) eqn:Hfin.
    + destruct (filter _ (rows db)); [answered|].
      unfold delete. rewrite Hfin. answered.
    + destruct nonfinite_id; answered.
Qed.

(** X9: create, then read: in a table whose ids are below the counter, a
    request that is created can be read back at once under the id it was
    answered with, written in decimal digits, and what is read is what
    validation handed over, stamped with the time of the insert. *)
Theorem created_user_is_read_back
        (body : json) (now : Z) (db : database) (vals : object) :
  below_counter db -> 0 <= auto_increment db < 2 ^ 53 ->
  parse_object userSchema body = inr vals ->
  any_too_long vals = false ->
  (forall e, get vals "email" = Some e -> email_in_use e db = false) ->
  exists k u db',
    post_user body now db = (inr {| statusCode := 201; body := json_id k |}, db') /\
    get_user (JSLib.decimal (Z.to_N k)) db'
    = (inr {| statusCode := 200; body := json_user u |}, db') /\
    id u = k /\
    get vals "name" = Some (name u) /\ get vals "email" = Some (email u) /\
    get vals "avatar" = avatar u /\
    get vals "role" = Some (role u) /\ get vals "status" = Some (status u) /\
    createdAt u = now /\ updatedAt u = now.
Proof.
  intros Hb Hk Hp Hfit Hfree.
  destruct (post_user_validated body now db vals Hp) as [Hpost Hsys].
  destruct (userSchema_validated body vals Hp)
    as [props [n [e [_ [_ [Gn [_ [Ge [_ [Gr Gs]]]]]]]]]].
  set (u := inserted vals n e now db).
  set (db' := {| rows := rows db ++ [u]; auto_increment := auto_increment db + 1 |}).
  exists (auto_increment db), u, db'.
  pose proof (Reading.id_names (auto_increment db) Hk) as Hname.
  split; [|split].
  - rewrite Hpost, (create_cases now vals db Hsys), Gn, Ge, Hfit, (Hfree e Ge).
    reflexivity.
  - unfold get_user, try_catch, bind.
    destruct (ById.equals_int_finite _ _ Hname) as [_ ->].
    rewrite (ById.select_named _ _ db' Hname). unfold db'. cbn [rows].
    rewrite filter_app, ById.filter_absent.
    + simpl. unfold u at 1. simpl id. now rewrite Z.eqb_refl.
    + intros w Hw. unfold below_counter in Hb. rewrite Forall_forall in Hb.
      specialize (Hb w Hw). lia.
  - unfold u, inserted; simpl. rewrite Gr, Gs. simpl. repeat split; auto.
Qed.

(** X10: update, then read: after a PUT answered 200, GET of the same
    parameter gives the very answer the PUT gave, and changes nothing. *)
Theorem updated_user_is_read_back
        (param : string) (body : json) (now : Z) (db : database)
        (r : response) (db' : database) :
  put_user param body now db = (inr r, db') -> statusCode r = 200 ->
  get_user param db' = (inr r, db').
Proof.
  intros Hput Hcode.
  destruct (parse_object userUpdateSchema body) as [errors|vals] eqn:Hp.
  { rewrite (put_user_rejected param body now db errors Hp) in Hput.
    injection Hput as <- <-. discriminate. }
  destruct (Updating.put_user_validated param body now db vals Hp) as [Hput' Hsys].
  rewrite Hput' in Hput.
  destruct (Updating.modify_cases param now vals db r db' Hsys Hput)
    as [[_ Hnot]|[u [found [Hf [-> ->]]]]]; [contradiction|].
  destruct (Updating.filter_found _ _ _ _ Hf) as [_ [_ Hu]].
  assert (Hfin : JS.isFinite (JS.Number param) = true).
  { unfold id_is in Hu. now destruct (JS.Number param). }
  assert (Hnan : JS.isNaN (JS.Number param) = false)
    by now destruct (JS.Number param).
  unfold get_user, try_catch, bind, select_where_id. rewrite Hnan, Hfin.
  unfold updated at 1. cbn [rows]. rewrite Updating.filter_updated, Hf. reflexivity.
Qed.

(** X11: a PUT that sets an e-mail held by a row of another id is answered
    409 with the message that the e-mail exists, and changes nothing.
    E-mails are compared as the unique index compares them. *)
Theorem update_to_a_taken_email_conflicts
        (param : string) (n : Z) (body : json) (now : Z) (db : database)
        (vals : object) (e : string) :
  names param n ->
  parse_object userUpdateSchema body = inr vals ->
  get vals "email" = Some e ->
  any_too_long vals = false ->
  (exists u, In u (rows db) /\ id u = n) ->
  (exists w, In w (rows db) /\ id w <> n /\ same_email e (email w) = true) ->
  put_user param body now db
  = (inr {| statusCode := 409; body := json_message email_ja_existe |}, db).
Proof.
  intros Hname Hp He Hfit [u [Hu Hid]] [w [Hw [Hwn Hsame]]].
  destruct (Updating.put_user_validated param body now db vals Hp) as [-> Hsys].
  destruct (ById.equals_int_finite _ _ Hname) as [Hfin Hnan].
  assert (Hex : existsb (id_is (JS.Number param)) (rows db) = true).
  { apply existsb_exists. exists u. split; [exact Hu|].
    rewrite (ById.id_is_named param n u Hname). now apply Z.eqb_eq. }
  assert (Htaken : email_taken (JS.Number param) vals db = true).
  { unfold email_taken. rewrite He. apply existsb_exists. exists w.
    split; [exact Hw|]. rewrite (ById.id_is_named param n w Hname), Hsame.
    now destruct (Z.eqb_spec (id w) n). }
  unfold modify, try_catch, bind. rewrite Hnan.
  rewrite (ById.select_named param n db Hname).
  destruct (filter (fun v => id v =? n) (rows db)) as [|v found] eqn:Hf.
  { exfalso. revert Hf. apply ById.filter_present. eauto. }
  unfold update. rewrite Hsys, Hfin, Hex, Hfit, Htaken. reflexivity.
Qed.

(** X12: a PUT that sends the row its own e-mail again, as the edit form
    does, is no conflict: in a table of distinct ids and e-mails it is
    answered 200. *)
Theorem update_with_own_email_succeeds
        (param : string) (n : Z) (body : json) (now : Z) (db : database)
        (vals : object) (u : user) :
  names param n ->
  ids_distinct db -> emails_distinct db ->
  In u (rows db) -> id u = n ->
  parse_object userUpdateSchema body = inr vals ->
  get vals "email" = Some (email u) ->
  any_too_long vals = false ->
  exists db',
    put_user param body now db
    = (inr {| statusCode := 200; body := json_user (assign vals now u) |}, db').
Proof.
  intros Hname Hd He Hu Hid Hp Hemail Hfit.
  destruct (Updating.put_user_validated param body now db vals Hp) as [-> Hsys].
  destruct (ById.equals_int_finite _ _ Hname) as [Hfin Hnan].
  assert (Hf : filter (id_is (JS.Number param)) (rows db) = [u]).
  { destruct (ById.filter_named param n (rows db) Hname) as [-> _].
    now apply Reading.filter_single. }
  assert (Htaken : email_taken (JS.Number param) vals db = false).
  { unfold email_taken. rewrite Hemail.
    destruct (existsb _ (rows db)) eqn:Hx; [|reflexivity].
    apply existsb_exists in Hx as [w [Hw Hc]].
    apply andb_true_iff in Hc as [Hother Hsame].
    rewrite (ById.id_is_named param n w Hname) in Hother.
    destruct (ForallOrdPairs_In He u w Hu Hw) as [Heq|[Hr|Hr]].
    - subst w. rewrite Hid, Z.eqb_refl in Hother. discriminate.
    - congruence.
    - rewrite Keeping.same_email_sym in Hr. congruence. }
  assert (Hex : existsb (id_is (JS.Number param)) (rows db) = true).
  { apply existsb_exists. exists u. split; [exact Hu|].
    rewrite (ById.id_is_named param n u Hname). now apply Z.eqb_eq. }
  eexists. unfold modify, try_catch, bind, select_where_id. rewrite Hnan, Hfin, Hf.
  unfold update. rewrite Hsys, Hfin, Hex, Hfit, Htaken. simpl negb. cbv iota.
  unfold updated at 1. cbn [rows]. rewrite Updating.filter_updated, Hf. reflexivity.
Qed.

(** X14: a parameter that is a number and the id of no row (an id that is
    absent, a fraction, white space, which reads as 0) gets 404 from GET,
    from DELETE and from PUT with a valid body, and changes nothing. *)
Theorem number_of_no_row_is_not_found (param : string) (db : database) :
  JS.isFinite (JS.Number param) = true ->
  existsb (id_is (JS.Number param)) (rows db) = false ->
  get_user param db
  = (inr {| statusCode := 404; body := json_message usuario_nao_encontrado |}, db) /\
  delete_user param db
  = (inr {| statusCode := 404; body := json_message usuario_nao_encontrado |}, db) /\
  (forall body now vals,
     parse_object userUpdateSchema body = inr vals ->
     put_user param body now db
     = (inr {| statusCode := 404; body := json_message usuario_nao_encontrado |}, db)).
Proof.
  intros Hfin Hnone.
  assert (Hnan : JS.isNaN (JS.Number param) = false)
    by now destruct (JS.Number param).
  assert (Hf : filter (id_is (JS.Number param)) (rows db) = []).
  { destruct (filter _ (rows db)) as [|u found] eqn:Hf; [reflexivity|].
    destruct (Updating.filter_found _ _ _ _ Hf) as [Hex _]. congruence. }
  split; [|split].
  - unfold get_user, try_catch, bind, select_where_id. now rewrite Hnan, Hfin, Hf.
  - unfold delete_user, try_catch, bind, select_where_id. now rewrite Hnan, Hfin, Hf.
  - intros body now vals Hp.
    destruct (Updating.put_user_validated param body now db vals Hp) as [-> _].
    unfold modify, try_catch, bind, select_where_id. now rewrite Hnan, Hfin, Hf.
Qed.

(** X15: an update injects no default: every property of the validated
    update is a property of the request, with its string.  A create
    request without role or status is handed over with user and
    active. *)
Theorem only_create_applies_defaults (props : list (string * json)) (vals : object) :
  (parse_object userUpdateSchema (JObject props) = inr vals ->
   forall key v, get vals key = Some v -> get props key = Some (JString v)) /\
  (parse_object userSchema (JObject props) = inr vals ->
   (get props "role" = None -> get vals "role" = Some "user") /\
   (get props "status" = None -> get vals "status" = Some "active")).
Proof.
  split.
  - intros Hp key v Hv.
    destruct (userUpdateSchema_validated _ vals Hp) as [props' [[= <-] Hcols]].
    assert (Hkey : In key (keys userSchema)).
    { apply get_in in Hv. apply (parse_object_strips _ _ _ _ Hp) in Hv.
      unfold userUpdateSchema in Hv. now rewrite keys_partial in Hv. }
    destruct (Hcols key Hkey) as [Hg [Hnone|[s Hs]]]; rewrite Hv in Hg.
    + rewrite Hnone in Hg. discriminate.
    + rewrite Hs in Hg. simpl in Hg. now injection Hg as ->.
  - intros Hp.
    destruct (userSchema_validated _ vals Hp)
      as [props' [n [e [[= <-] [_ [_ [_ [_ [_ [Gr Gs]]]]]]]]]].
    split; intros Hnone; [rewrite Gr|rewrite Gs]; now rewrite Hnone.
Qed.

(** X16: the empty update: a PUT whose body has none of the five properties
    is answered 200 and changes nothing in the row but updatedAt, which
    takes the time of the update. *)
Theorem empty_update_only_stamps
        (param : string) (n : Z) (props : list (string * json)) (now : Z)
        (db : database) (u : user) (found : list user) :
  names param n ->
  (forall key, In key (keys userSchema) -> get props key = None) ->
  filter (fun w => id w =? n) (rows db) = u :: found ->
  let stamped w :=
    {| id := id w; name := name w; email := email w; avatar := avatar w;
       role := role w; status := status w; createdAt := createdAt w;
       updatedAt := now |} in
  put_user param (JObject props) now db
  = (inr {| statusCode := 200; body := json_user (stamped u) |},
     {| rows := map (fun w => if id w =? n then stamped w else w) (rows db);
        auto_increment := auto_increment db |}).
Proof.
  intros Hname Hnone Hf stamped.
  assert (Hp : parse_object userUpdateSchema (JObject props) = inr []).
  { simpl.
    rewrite !Hnone by (rewrite userSchema_keys; simpl; tauto). reflexivity. }
  destruct (Updating.put_user_validated param _ now db [] Hp) as [-> _].
  destruct (ById.equals_int_finite _ _ Hname) as [Hfin Hnan].
  assert (Hex : existsb (id_is (JS.Number param)) (rows db) = true).
  { apply existsb_exists. exists u.
    assert (Hin : In u (filter (fun w => id w =? n) (rows db))) by (rewrite Hf; now left).
    apply filter_In in Hin as [Hin Hid]. split; [exact Hin|].
    now rewrite (ById.id_is_named param n u Hname). }
  destruct (ById.filter_named param n (rows db) Hname) as [Hfn _].
  unfold modify, try_catch, bind, select_where_id. rewrite Hnan, Hfin, Hfn, Hf.
  unfold update. simpl mentions. cbv iota. rewrite Hfin, Hex. simpl negb. cbv iota.
  change (any_too_long []) with false.
  change (email_taken (JS.Number param) [] db) with false. cbv iota.
  unfold updated at 1. cbn [rows]. rewrite Updating.filter_updated, Hfn, Hf.
  simpl. f_equal. unfold updated. f_equal.
  apply map_ext. intros w. now rewrite (ById.id_is_named param n w Hname).
Qed.

End WithService.

End Answers.

(* ================================================================== *)
(** ** The list page: pages and pagination *)

Module Paging.

Import Pagination UserList.
Local Open Scope Z_scope.

Lemma firstn_plus {A : Type} (n m : nat) (l : list A) :
  firstn (n + m) l = firstn n l ++ firstn m (skipn n l).
Proof.
  revert l. induction n as [|n IH]; intros l; [reflexivity|].
  destruct l as [|a rest]; simpl.
  - now rewrite firstn_nil.
  - now rewrite IH.
Qed.

(** [slice] between two indices in order that are not negative. *)
Lemma slice_window {A : Type} (a b : nat) (l : list A) :
  (a <= b)%nat ->
  JSLib.slice (Z.of_nat a) (Some (Z.of_nat b)) l = firstn (b - a) (skipn a l).
Proof.
  intros Hab. unfold JSLib.slice; cbv beta zeta.
  destruct (Z.ltb_spec (Z.of_nat a) 0) as [Ha|_]; [lia|].
  destruct (Z.ltb_spec (Z.of_nat b) 0) as [Hb|_]; [lia|].
  destruct (Nat.le_gt_cases (length l) a) as [Hla|Hla].
  - rewrite !skipn_all2 by lia. now rewrite !firstn_nil.
  - replace (Z.to_nat (Z.min (Z.of_nat a) (Z.of_nat (length l)))) with a by lia.
    destruct (Nat.le_gt_cases (length l) b) as [Hlb|Hlb].
    + rewrite !firstn_all2; [reflexivity|rewrite length_skipn; lia..].
    + f_equal. lia.
Qed.

(** [slice] from an index at or beyond the end. *)
Lemma slice_beyond {A : Type} (a : Z) (b : option Z) (l : list A) :
  Z.of_nat (length l) <= a -> JSLib.slice a b l = [].
Proof.
  intros Ha. unfold JSLib.slice; cbv beta zeta.
  destruct (Z.ltb_spec a 0) as [Hneg|_]; [lia|].
  replace (Z.to_nat _) with 0%nat; [reflexivity|].
  destruct b as [b|]; [destruct (Z.ltb_spec b 0)|]; lia.
Qed.

Lemma numbers_page (l : list Z) : numbers (map page l) = l.
Proof. induction l as [|n rest IH]; simpl; congruence. Qed.

Lemma numbers_app (l r : list item) : numbers (l ++ r) = numbers l ++ numbers r.
Proof.
  induction l as [|[n|] rest IH]; simpl; congruence.
Qed.

Lemma in_pages (total n : Z) : In n (pages total) <-> 1 <= n <= total.
Proof.
  unfold pages. rewrite in_map_iff. split.
  - intros [i [<- Hi]]. apply in_seq in Hi. lia.
  - intros Hn. exists (Z.to_nat n). split; [lia|]. apply in_seq. lia.
Qed.

Lemma pages_sorted (total : Z) : StronglySorted Z.lt (pages total).
Proof.
  unfold pages. generalize 1%nat. induction (Z.to_nat total) as [|k IH]; intros a; simpl.
  - constructor.
  - constructor; [apply IH|].
    apply Forall_forall. intros x Hx. apply in_map_iff in Hx as [i [<- Hi]].
    apply in_seq in Hi. lia.
Qed.

Lemma length_pages (total : Z) : length (pages total) = Z.to_nat total.
Proof. unfold pages. now rewrite length_map, length_seq. Qed.

(** The numbers of the buttons, in the four cases of the component. *)
Lemma numbers_shown (c total : Z) :
  numbers (pagesToShow c total)
  = if total <=? 5 then pages total
    else if c <=? 3 then [1; 2; 3; 4; 5; total]
    else if total - 2 <=? c
    then [1; total - 4; total - 3; total - 2; total - 1; total]
    else [1; c - 1; c; c + 1; total].
Proof.
  unfold pagesToShow.
  destruct (Z.leb_spec total 5) as [_|Hbig]; [apply numbers_page|].
  destruct (Z.leb_spec c 3) as [_|_].
  { rewrite numbers_app, numbers_page.
    change 0 with (Z.of_nat 0). change 5 with (Z.of_nat 5) at 1.
    rewrite slice_window by lia. unfold pages.
    replace (Z.to_nat total) with (5 + (Z.to_nat total - 5))%nat by lia.
    reflexivity. }
  destruct (Z.leb_spec (total - 2) c) as [_|_]; [|reflexivity].
  simpl. f_equal. rewrite numbers_page.
  unfold JSLib.slice; cbv beta zeta. rewrite length_pages.
  destruct (Z.ltb_spec (total - 5) 0) as [Hneg|_]; [lia|].
  replace (Z.to_nat _) with 5%nat by lia.
  replace (Z.to_nat (Z.min _ _)) with (Z.to_nat total - 5)%nat by lia.
  unfold pages. rewrite skipn_map, skipn_seq.
  replace (Z.to_nat total - (Z.to_nat total - 5))%nat with 5%nat by lia.
  cbn [firstn map seq]. repeat (f_equal; try lia).
Qed.

Ltac sorted_by_lia :=
  repeat (constructor; [|repeat (constructor; try lia)]); try constructor.

(** X17: what the pagination shows for a current page within the pages: the
    numbers of its buttons are in increasing order, so none is shown
    twice, each is a page that exists, and the first page, the last
    page, the current page and its neighbours are among them; there are
    never more than seven items. *)
Theorem shown_pages_are_pages (c total : Z) :
  1 <= c <= total ->
  let shown := numbers (pagesToShow c total) in
  StronglySorted Z.lt shown /\
  (forall n, In n shown -> 1 <= n <= total) /\
  In 1 shown /\ In total shown /\
  (forall n, c - 1 <= n <= c + 1 -> 1 <= n <= total -> In n shown) /\
  (length (pagesToShow c total) <= 7)%nat.
Proof.
  intros Hc shown. unfold shown. rewrite numbers_shown.
  assert (Hlen : (length (pagesToShow c total) <= 7)%nat).
  { unfold pagesToShow.
    destruct (Z.leb_spec total 5); [rewrite length_map, length_pages; lia|].
    destruct (c <=? 3).
    - rewrite length_app, length_map, (slice_window 0 5) by lia.
      rewrite length_firstn. simpl length. lia.
    - destruct (total - 2 <=? c); [|simpl; lia].
      simpl length. rewrite length_map. unfold JSLib.slice; cbv beta zeta.
      rewrite length_firstn, length_skipn, length_pages.
      destruct (Z.ltb_spec (total - 5) 0); lia. }
  refine (conj _ (conj _ (conj _ (conj _ (conj _ Hlen))))).
  - destruct (Z.leb_spec total 5); [apply pages_sorted|].
    destruct (Z.leb_spec c 3); [sorted_by_lia|].
    destruct (Z.leb_spec (total - 2) c); sorted_by_lia.
  - intros n Hn.
    destruct (Z.leb_spec total 5); [now apply in_pages|].
    destruct (Z.leb_spec c 3); [simpl in Hn; lia|].
    destruct (Z.leb_spec (total - 2) c); simpl in Hn; lia.
  - destruct (Z.leb_spec total 5); [apply in_pages; lia|].
    destruct (Z.leb_spec c 3); [simpl; lia|].
    destruct (Z.leb_spec (total - 2) c); simpl; lia.
  - destruct (Z.leb_spec total 5); [apply in_pages; lia|].
    destruct (Z.leb_spec c 3); [simpl; lia|].
    destruct (Z.leb_spec (total - 2) c); simpl; lia.
  - intros n Hn Hr.
    destruct (Z.leb_spec total 5); [now apply in_pages|].
    destruct (Z.leb_spec c 3); [simpl; lia|].
    destruct (Z.leb_spec (total - 2) c); simpl; lia.
Qed.

Lemma ceil_div_5 (len : Z) :
  5 * JSLib.ceil_div len 5 - 5 < len <= 5 * JSLib.ceil_div len 5.
Proof. unfold JSLib.ceil_div. Z.to_euclidean_division_equations. lia. Qed.

Lemma totalPages_bounds (st : state) :
  5 * totalPages st - 5 < Z.of_nat (length (users st)) <= 5 * totalPages st.
Proof. apply ceil_div_5. Qed.

(** The cards of the page [S i]. *)
Lemma page_window (i : nat) (st : state) :
  currentUsers (handlePageChange (Z.of_nat (S i)) st)
  = firstn 5 (skipn (5 * i) (users st)).
Proof.
  unfold currentUsers, indexOfFirstUser, indexOfLastUser, usersPerPage.
  cbn [currentPage users handlePageChange].
  replace (Z.of_nat (S i) * 5 - 5) with (Z.of_nat (5 * i)) by lia.
  replace (Z.of_nat (S i) * 5) with (Z.of_nat (5 * i + 5)) by lia.
  rewrite slice_window by lia. f_equal. lia.
Qed.

Lemma windows_concat {A : Type} (k : nat) (l : list A) :
  concat (map (fun i => firstn 5 (skipn (5 * i) l)) (seq 0 k)) = firstn (5 * k) l.
Proof.
  induction k as [|k IH]; [reflexivity|].
  rewrite seq_S, map_app, concat_app, IH. simpl map. simpl concat.
  rewrite List.app_nil_r. replace (5 * S k)%nat with (5 * k + 5)%nat by lia.
  now rewrite firstn_plus.
Qed.

(** X18: the pages 1 to [totalPages] divide the users: put one after the
    other they are the list, in its order; none of them is empty and none
    has more than five users.  The pagination is rendered exactly when
    there is more than one page. *)
Theorem pages_divide_the_users (st : state) :
  concat (map (fun p => currentUsers (handlePageChange p st)) (pages (totalPages st)))
  = users st /\
  (forall p, In p (pages (totalPages st)) ->
     (1 <= length (currentUsers (handlePageChange p st)) <= 5)%nat) /\
  (shows_pagination st = true <-> 1 < totalPages st).
Proof.
  pose proof (totalPages_bounds st) as Hceil. split; [|split].
  - unfold pages. rewrite <- seq_shift, !map_map.
    rewrite (map_ext _ (fun i => firstn 5 (skipn (5 * i) (users st))))
      by (intros i; apply page_window).
    rewrite windows_concat. apply firstn_all2. lia.
  - intros p Hp. apply in_pages in Hp.
    replace p with (Z.of_nat (S (Z.to_nat p - 1))) by lia.
    rewrite page_window, length_firstn, length_skipn. lia.
  - unfold shows_pagination, usersPerPage. rewrite Z.ltb_lt. lia.
Qed.

(** X19: whatever the pagination lets the user ask for is a page that has
    users: from a current page within the pages, the two arrows and the
    buttons lead to a page within the pages, and that page is not
    empty. *)
Theorem navigation_reaches_a_page_with_users (st : state) (p : Z) :
  1 <= currentPage st <= totalPages st ->
  In p (reachable (currentPage st) (totalPages st)) ->
  1 <= p <= totalPages st /\ currentUsers (handlePageChange p st) <> [].
Proof.
  intros Hc Hp.
  assert (Hrange : 1 <= p <= totalPages st).
  { unfold reachable, previous, next in Hp.
    rewrite !in_app_iff, numbers_shown in Hp.
    destruct Hp as [Hp|[Hp|Hp]].
    - destruct (Z.eqb_spec (currentPage st) 1); simpl in Hp; lia.
    - destruct (Z.leb_spec (totalPages st) 5); [now apply in_pages|].
      destruct (Z.leb_spec (currentPage st) 3); [simpl in Hp; lia|].
      destruct (Z.leb_spec (totalPages st - 2) (currentPage st)); simpl in Hp; lia.
    - destruct (Z.eqb_spec (currentPage st) (totalPages st)); simpl in Hp; lia. }
  split; [exact Hrange|].
  pose proof (totalPages_bounds st) as Hceil.
  replace p with (Z.of_nat (S (Z.to_nat p - 1))) by lia.
  rewrite page_window. intros Hnil. apply (f_equal (@length _)) in Hnil.
  rewrite length_firstn, length_skipn in Hnil. cbn [length] in Hnil. lia.
Qed.

Lemma filter_out_one (l : list Db.user) (u : Db.user) :
  NoDup (map Db.id l) -> In u l ->
  S (length (filter (fun w => negb (Db.id w =? Db.id u)) l)) = length l.
Proof.
  induction l as [|w rest IH]; simpl; intros Hnd Hin; [contradiction|].
  inversion Hnd as [|? ? Hnot Hnd']; subst.
  destruct Hin as [->|Hin].
  - rewrite Z.eqb_refl. simpl. f_equal.
    f_equal. apply forallb_filter_id. apply forallb_forall. intros v Hv.
    destruct (Z.eqb_spec (Db.id v) (Db.id u)) as [Heq|_]; [|reflexivity].
    exfalso. apply Hnot. rewrite <- Heq. now apply in_map.
  - destruct (Z.eqb_spec (Db.id w) (Db.id u)) as [Heq|_]; simpl.
    + exfalso. apply Hnot. rewrite Heq. now apply in_map.
    + f_equal. now apply IH.
Qed.

(** X20: deleting never changes the page shown.  When the last page held one
    user, a deletion leaves the page without a card although users
    remain, and on the second page without a pagination too. *)
Theorem deleting_can_empty_the_page_shown (st : state) (u : Db.user) :
  loading st = false ->
  NoDup (map Db.id (users st)) -> In u (users st) ->
  2 <= currentPage st ->
  Z.of_nat (length (users st)) = 5 * (currentPage st - 1) + 1 ->
  let st' := handleDeleteUser true (Db.id u) st in
  currentPage st' = currentPage st /\ users st' <> [] /\
  render st'
  = cards (error st) []
          (if currentPage st =? 2 then None
           else Some (pagesToShow (currentPage st) (currentPage st - 1))).
Proof.
  intros Hload Hnd Hin Hc Hlen st'.
  pose proof (filter_out_one (users st) u Hnd Hin) as Hone.
  assert (Hlen' : Z.of_nat (length (users st')) = 5 * (currentPage st - 1)).
  { unfold st'. cbn [handleDeleteUser users]. lia. }
  assert (Hsome : users st' <> []).
  { intros Hnil. apply (f_equal (@length _)) in Hnil. cbn [length] in Hnil. lia. }
  split; [reflexivity|]. split; [exact Hsome|].
  assert (Hrender : render st'
                    = cards (error st) (currentUsers st')
                            (if shows_pagination st'
                             then Some (pagesToShow (currentPage st') (totalPages st'))
                             else None)).
  { unfold render. change (loading st') with (loading st). rewrite Hload.
    destruct (users st'); [congruence|reflexivity]. }
  rewrite Hrender. f_equal.
  - apply slice_beyond. unfold indexOfFirstUser, indexOfLastUser, usersPerPage.
    change (currentPage st') with (currentPage st). lia.
  - unfold shows_pagination, totalPages, usersPerPage. rewrite Hlen'.
    change (currentPage st') with (currentPage st).
    destruct (Z.eqb_spec (currentPage st) 2) as [->|Hne]; [reflexivity|].
    destruct (Z.ltb_spec 5 (5 * (currentPage st - 1))) as [_|Hle]; [|lia].
    do 2 f_equal. pose proof (ceil_div_5 (5 * (currentPage st - 1))). lia.
Qed.

End Paging.

(* ================================================================== *)
(** ** The client and the API together *)

Module Sending.

Import Zod ZodFacts SchemaFacts Client.
Local Open Scope string_scope.

Section WithService.

Context {V : Validators} {E : Db.Engine}.

(** X21: after a DELETE answered 204 the list page drops the card of the id
    it asked to delete: if the list was the table before, it is the
    table afterwards. *)
Theorem list_follows_the_table
        (param : string) (userId : Z) (db db' : Db.database)
        (r : Server.response) (st : UserList.state) :
  Server.names param userId ->
  UserList.users st = Db.rows db ->
  Server.delete_user param db = (inr r, db') ->
  Server.statusCode r = 204%Z ->
  UserList.users (UserList.handleDeleteUser true userId st) = Db.rows db'.
Proof.
  intros Hname Hlist Hdel Hcode.
  destruct (filter (fun u => Db.id u =? userId)%Z (Db.rows db)) as [|u found] eqn:Hf.
  - rewrite (ById.delete_user_absent param userId db Hname Hf) in Hdel.
    injection Hdel as <- _. discriminate.
  - rewrite (ById.delete_user_present param userId db Hname) in Hdel by congruence.
    injection Hdel as _ <-. simpl. now rewrite Hlist.
Qed.

Lemma placeholder_is_not_blank (data : object) (n : string) :
  avatar_is_blank (set data "avatar" (default_avatar n)) = false.
Proof.
  unfold avatar_is_blank. rewrite get_set_same.
  unfold default_avatar, JS.trim. cbn [append JS.trimStart].
  change (JS.is_white_space "h") with false. cbv iota.
  cbn [JS.trimEnd String.eqb]. 
  now destruct (JS.trimEnd _).
Qed.

(** What [onSubmit] hands to the service. *)
Lemma onSubmit_sends (id : option string) (data sent : object) :
  onSubmit id data = createUser sent \/ (exists i, onSubmit id data = updateUser i sent) ->
  (avatar_is_blank data = false /\ sent = data) \/
  (avatar_is_blank data = true /\
   exists n, get data "name" = Some n /\ sent = set data "avatar" (default_avatar n)).
Proof.
  unfold onSubmit.
  destruct (avatar_is_blank data); [destruct (get data "name") as [n|]|];
    destruct (isEditMode id); intros [H|[i H]]; try discriminate;
    injection H as <-; eauto.
Qed.

(** X22: whatever the form sends carries an avatar.  The data handed to
    [createUser] or [updateUser] are the validated data when their avatar
    is not blank, and then the avatar is one the URL check accepts;
    otherwise (the validated avatar is absent, empty or blank) they are
    the validated data with the avatar set to the placeholder for the
    validated name.  Either way the avatar sent is not blank, so that an
    edit always sets the column. *)
Theorem sent_data_carry_an_avatar (id : option string) (values : json) (sent : object) :
  handleSubmit id values = createUser sent \/
  (exists i, handleSubmit id values = updateUser i sent) ->
  exists data a,
    resolver id values = inr data /\
    get sent "avatar" = Some a /\ JS.trim a <> "" /\
    ((avatar_is_blank data = false /\ sent = data /\ isUrl a = true) \/
     (avatar_is_blank data = true /\
      exists n, get data "name" = Some n /\
                a = "https://ui-avatars.com/api/?name=" ++ JS.replace " " "+" n /\
                sent = set data "avatar" a)).
Proof.
  unfold handleSubmit. destruct (resolver id values) as [errors|data] eqn:Hr.
  { intros [H|[i H]]; discriminate. }
  intros Hs.
  assert (Hb : avatar_is_blank sent = false).
  { destruct (onSubmit_sends id data sent Hs) as [[Hb ->]|[_ [n [_ ->]]]];
      [exact Hb|apply placeholder_is_not_blank]. }
  pose proof Hb as Hsent. unfold avatar_is_blank in Hsent.
  destruct (get sent "avatar") as [a|] eqn:Ha; [|discriminate].
  apply orb_false_iff in Hsent as [Hempty Htrim].
  exists data, a. split; [reflexivity|]. split; [reflexivity|].
  split; [now apply String.eqb_neq|].
  destruct (onSubmit_sends id data sent Hs) as [[Hd ->]|[Hd [n [Hn ->]]]].
  - left. split; [exact Hd|]. split; [reflexivity|].
    apply Submitting.resolver_accepted in Hr.
    destruct (validated _ _ _ (Submitting.form_schema_NoDup id) Hr)
      as [props [-> [Hin _]]].
    assert (Hparse : exists v,
               parse (or (optional (z_string [url url_invalida])) (z_literal ""))
                     (get props "avatar") = OK v /\ get data "avatar" = v).
    { destruct (isEditMode id).
      - destruct (Hin "avatar" _ eq_refl) as [v [Pv Gv]]. exists v. split; [|exact Gv].
        simpl in Pv. destruct (get props "avatar"); [exact Pv|].
        injection Pv as <-. reflexivity.
      - exact (Hin "avatar" _ eq_refl). }
    destruct Hparse as [v [Pv Gv]]. rewrite Ha in Gv. subst v.
    destruct (get props "avatar") as [j|]; [|discriminate].
    destruct (parse_keeps_string _ _ _ Pv) as [str [-> [= <-]]].
    simpl in Pv. destruct (isUrl a); [reflexivity|].
    simpl in Pv. rewrite Hempty in Pv. discriminate.
  - right. split; [exact Hd|]. exists n. split; [exact Hn|].
    rewrite get_set_same in Ha. injection Ha as <-. split; reflexivity.
Qed.

Lemma kept_OK (r : result) (v : option string) : kept r = Some v -> r = OK v.
Proof. destruct r; simpl; congruence. Qed.

(** A shape accepts an object whose every property it keeps. *)
Lemma fieldwise_accepts (sh : shape) (props : list (string * json))
      (out : string -> option string) :
  NoDup (keys sh) ->
  (forall key s, In (key, s) sh -> parse s (get props key) = OK (out key)) ->
  exists vals,
    parse_object sh (JObject props) = inr vals /\
    forall key, get vals key = match get sh key with
                               | Some _ => out key
                               | None => None
                               end.
Proof.
  intros Hnd Hall. exists (flat_map (output_of props) sh). split.
  - simpl. rewrite parse_shape_spec.
    rewrite (FormAndApi.flat_map_same (issues_of props) (fun _ => []) sh).
    + replace (flat_map (fun _ => []) sh) with (@nil issue)
        by (clear; induction sh; simpl; auto).
      reflexivity.
    + intros [key s] Hf. unfold issues_of. simpl fst; simpl snd.
      now rewrite (Hall key s Hf).
  - intros key. rewrite (get_output sh props key Hnd).
    destruct (get sh key) as [s|] eqn:Hs; [|reflexivity].
    apply get_some_in in Hs. now rewrite (Hall key s Hs).
Qed.

(** X23: the form and the API on a creation: the data the form hands to
    [createUser], sent as the object of their properties, pass the
    validation of POST unchanged, provided the URL check accepts the
    placeholder address when the form has put it in. *)
Theorem created_by_the_form_passes_the_api (values : json) (sent : object) :
  handleSubmit None values = createUser sent ->
  (forall n, get sent "avatar" = Some (default_avatar n) ->
             isUrl (default_avatar n) = true) ->
  exists vals,
    parse_object Server.userSchema (JObject (to_json sent)) = inr vals /\
    forall key, get vals key = get sent key.
Proof.
  unfold handleSubmit.
  destruct (resolver None values) as [errors|data] eqn:Hr; [discriminate|].
  intros Hs Hurl. apply Submitting.resolver_accepted in Hr.
  simpl isEditMode in Hr. cbv iota in Hr.
  pose proof (Submitting.form_schema_NoDup None) as Hnd.
  simpl isEditMode in Hnd. cbv iota in Hnd.
  destruct (validated _ _ _ Hnd Hr) as [props [-> [Hin Hout]]].
  assert (Hsent : (forall key, key <> "avatar" -> get sent key = get data key) /\
                  (exists a, get sent "avatar" = Some a /\ a <> "") /\
                  parse (or (optional (z_string [url url_invalida])) (z_literal ""))
                        (option_map JString (get sent "avatar"))
                  = OK (get sent "avatar")).
  { destruct (onSubmit_sends None data sent (or_introl Hs))
      as [[Hb ->]|[_ [n [_ ->]]]].
    - split; [reflexivity|]. split.
      + unfold avatar_is_blank in Hb.
        destruct (get data "avatar") as [a|]; [|discriminate].
        exists a. split; [reflexivity|].
        apply orb_false_iff in Hb as [Hb _]. now apply String.eqb_neq.
      + destruct (Hin "avatar" _ eq_refl) as [v [Pv Gv]]. rewrite Gv.
        exact (FormAndApi.parse_again _ _ _ Pv).
    - split; [intros key Hkey; now apply get_set_other|].
      rewrite get_set_same in *. split.
      + exists (default_avatar n). split; [reflexivity|discriminate].
      + simpl. now rewrite (Hurl n eq_refl). }
  destruct Hsent as [Hother [[a [Ha Hne]] Hav]].
  assert (Hfields : forall key s, In (key, s) Client.userSchema ->
                      parse s (get (to_json sent) key) = OK (get sent key)).
  { intros key s Hf. rewrite FormAndApi.get_to_json.
    simpl in Hf.
    destruct Hf as [[= <- <-]|[[= <- <-]|[[= <- <-]|[[= <- <-]|[[= <- <-]|[]]]]]];
      try exact Hav;
      (rewrite Hother by discriminate);
      match goal with
      | |- parse ?s (option_map JString (get data ?k)) = _ =>
          destruct (Hin k s eq_refl) as [v [Pv Gv]]
      end;
      rewrite Gv; exact (FormAndApi.parse_again _ _ _ Pv). }
  destruct (fieldwise_accepts Client.userSchema (to_json sent) (get sent) Hnd Hfields)
    as [vals [Hvals Hget]].
  exists vals. split.
  - assert (Hsame : accepted (parse_object Client.userSchema (JObject (to_json sent)))
                    = accepted (parse_object Server.userSchema (JObject (to_json sent)))).
    { apply FormAndApi.same_verdict_shape, FormAndApi.schemas_same_verdict.
      rewrite FormAndApi.get_to_json, Ha. simpl. congruence. }
    rewrite Hvals in Hsame.
    destruct (parse_object Server.userSchema _) as [errors|vals'];
      simpl in Hsame; congruence.
  - intros key. rewrite Hget.
    destruct (get Client.userSchema key) as [s|] eqn:Hnone; [reflexivity|].
    assert (Hkey : key <> "avatar") by (intros ->; discriminate).
    now rewrite (Hother key Hkey), (Hout key Hnone).
Qed.

End WithService.

End Sending.

(* ================================================================== *)
(** ** The properties above, on the sample data *)

Module Walkthrough.

Import Zod Db Server Sample.
Local Open Scope string_scope.
Local Open Scope Z_scope.

Ltac distinct_ids :=
  repeat (constructor; [simpl; intuition discriminate|]); constructor.

Lemma get_by_decimal_id_witness :
  get_user "2" (Scenes.members 3)
  = (inr {| statusCode := 200; body := json_user (Scenes.member 2) |}, Scenes.members 3).
Proof.
  apply (Reading.get_by_decimal_id (Scenes.members 3) (Scenes.member 2)).
  - unfold Table.ids_distinct. simpl. distinct_ids.
  - simpl. tauto.
  - simpl. lia.
Defined.

Lemma ids_stay_distinct_witness :
  below_counter (run Scenes.session empty_table) /\
  Table.ids_distinct (run Scenes.session empty_table).
Proof.
  apply (Keeping.ids_stay_distinct Scenes.session empty_table).
  - unfold below_counter. simpl. constructor.
  - unfold Table.ids_distinct. simpl. constructor.
Defined.

Lemma rows_stay_conforming_witness :
  Forall (fun u => Table.conforms u = true) (rows (run Scenes.session (Scenes.members 3))).
Proof.
  apply (Keeping.rows_stay_conforming Scenes.session (Scenes.members 3)).
  simpl. repeat constructor.
Defined.

Lemma emails_stay_distinct_witness :
  Table.emails_distinct (run Scenes.session (Scenes.members 3)).
Proof.
  apply (Keeping.emails_stay_distinct Scenes.session (Scenes.members 3)).
  - unfold below_counter. simpl. repeat constructor.
  - unfold Table.ids_distinct. simpl. distinct_ids.
  - unfold Table.emails_distinct. simpl. repeat constructor.
Defined.

Lemma deleted_id_never_returns_witness :
  let after := run Scenes.session (snd (delete_user "2" (Scenes.members 3))) in
  absent 2 after /\
  get_user "2" after
  = (inr {| statusCode := 404; body := json_message usuario_nao_encontrado |}, after).
Proof.
  apply (Lifetime.deleted_id_never_returns "2" 2 (Scenes.members 3) Scenes.session).
  - reflexivity.
  - unfold below_counter. simpl. repeat constructor.
  - exists (Scenes.member 2). simpl. tauto.
Defined.

Lemma validated_object_is_accepted_again_witness :
  parse_object userSchema (JObject (to_json ana_validated)) = inr ana_validated.
Proof.
  apply (FormAndApi.validated_object_is_accepted_again userSchema ana ana_validated).
  - simpl. repeat (constructor; [simpl; intuition discriminate|]). constructor.
  - reflexivity.
Defined.

Lemma created_user_is_read_back_witness :
  exists k u db',
    post_user ana 1000 empty_table
    = (inr {| statusCode := 201; body := json_id k |}, db') /\
    get_user (JSLib.decimal (Z.to_N k)) db'
    = (inr {| statusCode := 200; body := json_user u |}, db') /\
    id u = k /\
    get ana_validated "name" = Some (name u) /\
    get ana_validated "email" = Some (email u) /\
    get ana_validated "avatar" = avatar u /\
    get ana_validated "role" = Some (role u) /\
    get ana_validated "status" = Some (status u) /\
    createdAt u = 1000 /\ updatedAt u = 1000.
Proof.
  apply (Answers.created_user_is_read_back ana 1000 empty_table ana_validated).
  - unfold below_counter. simpl. constructor.
  - simpl. lia.
  - reflexivity.
  - reflexivity.
  - intros e He. reflexivity.
Defined.

Lemma updated_user_is_read_back_witness :
  get_user "1" {| rows := [renamed_row 1000 2000]; auto_increment := 2 |}
  = (inr {| statusCode := 200; body := json_user (renamed_row 1000 2000) |},
     {| rows := [renamed_row 1000 2000]; auto_increment := 2 |}).
Proof.
  apply (Answers.updated_user_is_read_back "1" rename 2000 (ana_table 1000)).
  - reflexivity.
  - reflexivity.
Defined.

Lemma update_to_a_taken_email_conflicts_witness :
  put_user "2" (JObject [("email", JString "USER1@X.COM")]) 2000 (Scenes.members 3)
  = (inr {| statusCode := 409; body := json_message email_ja_existe |}, Scenes.members 3).
Proof.
  apply (Answers.update_to_a_taken_email_conflicts
           "2" 2 (JObject [("email", JString "USER1@X.COM")]) 2000 (Scenes.members 3)
           [("email", "USER1@X.COM")] "USER1@X.COM").
  - reflexivity.
  - reflexivity.
  - reflexivity.
  - reflexivity.
  - exists (Scenes.member 2). simpl. tauto.
  - exists (Scenes.member 1). simpl. split; [tauto|]. split; [lia|reflexivity].
Defined.

Lemma update_with_own_email_succeeds_witness :
  exists db',
    put_user "2" (JObject [("name", JString "Bia"); ("email", JString "user2@x.com")])
             2000 (Scenes.members 3)
    = (inr {| statusCode := 200;
              body := json_user (assign [("name", "Bia"); ("email", "user2@x.com")]
                                        2000 (Scenes.member 2)) |}, db').
Proof.
  apply (Answers.update_with_own_email_succeeds
           "2" 2 (JObject [("name", JString "Bia"); ("email", JString "user2@x.com")])
           2000 (Scenes.members 3) [("name", "Bia"); ("email", "user2@x.com")]
           (Scenes.member 2)).
  - reflexivity.
  - unfold Table.ids_distinct. simpl. distinct_ids.
  - unfold Table.emails_distinct. simpl. repeat constructor.
  - simpl. tauto.
  - reflexivity.
  - reflexivity.
  - reflexivity.
  - reflexivity.
Defined.

Lemma number_of_no_row_is_not_found_witness :
  get_user " " (Scenes.members 3)
  = (inr {| statusCode := 404; body := json_message usuario_nao_encontrado |},
     Scenes.members 3).
Proof.
  destruct (Answers.number_of_no_row_is_not_found " " (Scenes.members 3)) as [H _].
  - reflexivity.
  - reflexivity.
  - exact H.
Defined.

Lemma only_create_applies_defaults_witness :
  get [ ("name", "Ana Souza"); ("email", "ana@x.com"); ("role", "user");
        ("status", "active") ] "role" = Some "user".
Proof.
  destruct (Answers.only_create_applies_defaults
              [ ("name", JString "Ana Souza"); ("email", JString "ana@x.com") ]
              [ ("name", "Ana Souza"); ("email", "ana@x.com"); ("role", "user");
                ("status", "active") ]) as [_ H].
  destruct (H eq_refl) as [Hrole _]. apply Hrole. reflexivity.
Defined.

Lemma empty_update_only_stamps_witness :
  put_user "1" (JObject [("isAdmin", JBool true)]) 2000 (ana_table 1000)
  = (inr {| statusCode := 200;
            body := json_user {| id := 1; name := "Ana Silva"; email := "ana@x.com";
                                 avatar := None; role := "user"; status := "active";
                                 createdAt := 1000; updatedAt := 2000 |} |},
     {| rows := [ {| id := 1; name := "Ana Silva"; email := "ana@x.com";
                     avatar := None; role := "user"; status := "active";
                     createdAt := 1000; updatedAt := 2000 |} ];
        auto_increment := 2 |}).
Proof.
  apply (Answers.empty_update_only_stamps
           "1" 1 [("isAdmin", JBool true)] 2000 (ana_table 1000) (ana_row 1000) []).
  - reflexivity.
  - intros key Hkey. simpl in Hkey.
    destruct Hkey as [<-|[<-|[<-|[<-|[<-|[]]]]]]; reflexivity.
  - reflexivity.
Defined.

Lemma shown_pages_are_pages_witness :
  In 6 (Pagination.numbers (Pagination.pagesToShow 5 10)).
Proof.
  destruct (Paging.shown_pages_are_pages 5 10) as [_ [_ [_ [_ [H _]]]]].
  - lia.
  - apply H; lia.
Defined.

Lemma navigation_reaches_a_page_with_users_witness :
  1 <= 3 <= UserList.totalPages (Scenes.listing 12 2) /\
  UserList.currentUsers (UserList.handlePageChange 3 (Scenes.listing 12 2)) <> [].
Proof.
  apply (Paging.navigation_reaches_a_page_with_users (Scenes.listing 12 2) 3).
  - vm_compute. split; discriminate.
  - vm_compute. tauto.
Defined.

Lemma deleting_can_empty_the_page_shown_witness :
  let st' := UserList.handleDeleteUser true 6 (Scenes.listing 6 2) in
  UserList.currentPage st' = 2 /\ UserList.users st' <> [] /\
  UserList.render st' = UserList.cards None [] None.
Proof.
  apply (Paging.deleting_can_empty_the_page_shown (Scenes.listing 6 2) (Scenes.member 6)).
  - reflexivity.
  - simpl. distinct_ids.
  - simpl. tauto.
  - simpl. lia.
  - reflexivity.
Defined.

Lemma list_follows_the_table_witness :
  UserList.users (UserList.handleDeleteUser true 2 (Scenes.listing 3 1))
  = [Scenes.member 1; Scenes.member 3].
Proof.
  apply (Sending.list_follows_the_table
           "2" 2 (Scenes.members 3)
           {| rows := [Scenes.member 1; Scenes.member 3]; auto_increment := 4 |}
           {| statusCode := 204; body := no_content |} (Scenes.listing 3 1));
    reflexivity.
Defined.

Lemma sent_data_carry_an_avatar_witness :
  exists data a,
    Client.resolver None Scenes.ana_form = inr data /\
    get Scenes.ana_sent "avatar" = Some a /\ JS.trim a <> "" /\
    ((Client.avatar_is_blank data = false /\ Scenes.ana_sent = data /\
      Zod.isUrl a = true) \/
     (Client.avatar_is_blank data = true /\
      exists n, get data "name" = Some n /\
                a = "https://ui-avatars.com/api/?name=" ++ JS.replace " " "+" n /\
                Scenes.ana_sent = set data "avatar" a)).
Proof.
  apply (Sending.sent_data_carry_an_avatar None Scenes.ana_form Scenes.ana_sent).
  left. reflexivity.
Defined.

Lemma created_by_the_form_passes_the_api_witness :
  exists vals,
    parse_object userSchema (JObject (to_json Scenes.ana_sent)) = inr vals /\
    forall key, get vals key = get Scenes.ana_sent key.
Proof.
  apply (Sending.created_by_the_form_passes_the_api Scenes.ana_form Scenes.ana_sent).
  - reflexivity.
  - intros n Hn. reflexivity.
Defined.

End Walkthrough.
